(** * Dairycart: variant expansion and atomic catalog commit

    A shallow embedding of the product-creation and product-archival
    handlers of the Dairycart API (package [main]), of the combination
    enumerator [generateCartesianProductForOptions], and of the calls of
    the [storage.Storer] interface they rely on.

    Conventions.
    - Go's [uint64] and [uint32] are [N]; no arithmetic is performed on
      them besides [math.Max] against 1, so no wrap-around can occur.
    - Go's [int] slice indices are [nat]: a slice index never exceeds the
      length of a slice held in memory.
    - [time.Time] is a tick count; the zero time is [0].
    - [float64] is Rocq's binary64 primitive float.
    - A Go call returning [(value, error)] returns a [result]. *)

From Stdlib Require Import String Ascii NArith Arith Bool Lia PrimFloat DecimalString List.
Import ListNotations.

Local Open Scope string_scope.
Local Open Scope list_scope.

Definition uint64 : Type := N.
Definition uint32 : Type := N.
Definition Time : Type := N.
Definition float64 : Type := float.

Notation "a +++ b" := (String.append a b) (at level 60, right associativity).

(** ** The pieces of Go's standard library that the code calls *)

Module strings.

(** [strings.Join(elems, sep)] *)
Fixpoint Join (elems : list string) (sep : string) : string :=
  match elems with
  | [] => EmptyString
  | [e] => e
  | e :: rest => e +++ sep +++ Join rest sep
  end.

(** [strings.ToLower] restricted to the ASCII letters, used to run the
    development on concrete inputs.  The development itself is
    parametric in the lower-casing function. *)
Definition lower_ascii (c : ascii) : ascii :=
  let n := nat_of_ascii c in
  if ((65 <=? n) && (n <=? 90))%nat then ascii_of_nat (n + 32) else c.

Fixpoint ToLowerASCII (s : string) : string :=
  match s with
  | EmptyString => EmptyString
  | String c rest => String (lower_ascii c) (ToLowerASCII rest)
  end.

End strings.

(** What [fmt.Sprintf] prints for the verb [%d] and a non-negative
    [int], and the line feed of a raw string literal. *)
Definition decimal (n : nat) : string := NilEmpty.string_of_uint (Nat.to_uint n).

Definition newline : string := String (ascii_of_nat 10) EmptyString.

(** Errors that reach the handlers.  [ErrNoRows] is [sql.ErrNoRows],
    [ErrTxDone] is [sql.ErrTxDone], [ErrUniqueViolation] is a [pq.Error]
    of class 23505 naming the violated constraint, and [ErrOther] is any
    other failure (connectivity, malformed statement, ...). *)
Inductive error : Type :=
| ErrNoRows
| ErrTxDone
| ErrUniqueViolation (constraint : string)
| ErrOther (msg : string).

Inductive result (A : Type) : Type :=
| Ok (a : A)
| Err (e : error).
Arguments Ok {A} a.
Arguments Err {A} e.

(** What running a piece of Go code can end in: a normal return, a
    run-time panic (index out of range), or the exhaustion of the budget
    of loop iterations granted to the model. *)
Inductive outcome (A : Type) : Type :=
| Returned (a : A)
| Panicked
| OutOfFuel.
Arguments Returned {A} a.
Arguments Panicked {A}.
Arguments OutOfFuel {A}.

(** [s[j] = v] on a slice, for [j] in range. *)
Fixpoint set_nth {A : Type} (s : list A) (j : nat) (v : A) : list A :=
  match s, j with
  | [], _ => []
  | _ :: rest, 0 => v :: rest
  | a :: rest, S j' => a :: set_nth rest j' v
  end.

(** ** Data model ([models] package, as the handlers use it) *)

Record ProductOptionValue : Type := mkProductOptionValue {
  pov_ID : uint64;
  pov_ProductOptionID : uint64;
  pov_Value : string;
  pov_CreatedOn : Time;
  pov_ArchivedOn : option Time
}.

Record ProductOption : Type := mkProductOption {
  po_ID : uint64;
  po_Name : string;
  po_ProductRootID : uint64;
  po_Values : list ProductOptionValue;
  po_CreatedOn : Time;
  po_ArchivedOn : option Time
}.

(** [simpleProductOption] and [optionPlaceholder] of product_options.go *)
Record simpleProductOption : Type := mkSimpleProductOption {
  IDs : list uint64;
  OptionSummary : string;
  SKUPostfix : string;
  OriginalValues : list ProductOptionValue
}.

Record optionPlaceholder : Type := mkOptionPlaceholder {
  ph_ID : uint64;
  ph_Summary : string;
  ph_Value : string;
  ph_OriginalValue : ProductOptionValue
}.

(** ** The specification's odometer order

    Written from the words of the specification, not from the code: all
    the ways of selecting one element per list, the last list cycling
    fastest and the first slowest. *)
Fixpoint odometer {A : Type} (vss : list (list A)) : list (list A) :=
  match vss with
  | [] => [[]]
  | vs :: rest => flat_map (fun v => map (cons v) (odometer rest)) vs
  end.

(** The number of ways of selecting one element per list. *)
Fixpoint count_combinations {A : Type} (vss : list (list A)) : nat :=
  match vss with
  | [] => 1
  | vs :: rest => length vs * count_combinations rest
  end.

Section Catalog.

(** [strings.ToLower] of Go's standard library. *)
Variable ToLower : string -> string.

(** The closure [next] of [generateCartesianProductForOptions]:
    [for j := len(ix) - 1; j >= 0; j-- { ... }], entered with
    [j1 = j + 1].  [ix] is mutated in place in Go and threaded here. *)
Fixpoint next_from (j1 : nat) (ix : list nat) (sl : list (list optionPlaceholder))
  : option (list nat) :=
  match j1 with
  | 0 => Some ix
  | S j =>
      match nth_error ix j with
      | None => None
      | Some v =>
          let ix1 := set_nth ix j (S v) in
          if (j =? 0)%nat then Some ix1
          else match nth_error sl j with
               | None => None
               | Some s =>
                   if (S v <? length s)%nat then Some ix1
                   else next_from j (set_nth ix1 j 0) sl
               end
      end
  end.

Definition next (ix : list nat) (sl : list (list optionPlaceholder)) : option (list nat) :=
  next_from (length ix) ix sl.

(** The first loop: one placeholder per value of every option. *)
Definition placeholder (o : ProductOption) (v : ProductOptionValue) : optionPlaceholder :=
  {| ph_ID := pov_ID v;
     ph_Summary := po_Name o +++ ": " +++ pov_Value v;
     ph_Value := pov_Value v;
     ph_OriginalValue := v |}.

Definition placeholders (inputOptions : list ProductOption) : list (list optionPlaceholder) :=
  map (fun o => map (placeholder o) (po_Values o)) inputOptions.

(** [for j, k := range ix { ... optionData[j][k] ... }], started at
    position [j]; [None] is the index-out-of-range panic. *)
Fixpoint pick (optionData : list (list optionPlaceholder)) (j : nat) (ix : list nat)
  : option (list optionPlaceholder) :=
  match ix with
  | [] => Some []
  | k :: ix' =>
      match nth_error optionData j with
      | None => None
      | Some s =>
          match nth_error s k with
          | None => None
          | Some ph =>
              match pick optionData (S j) ix' with
              | None => None
              | Some phs => Some (ph :: phs)
              end
          end
      end
  end.

(** The four slices appended to along the inner loop, then joined. *)
Definition assemble (phs : list optionPlaceholder) : simpleProductOption :=
  {| IDs := map ph_ID phs;
     OptionSummary := strings.Join (map ph_Summary phs) ", ";
     SKUPostfix := strings.Join (map (fun ph => ToLower (ph_Value ph)) phs) "_";
     OriginalValues := map ph_OriginalValue phs |}.

(** [for ix := make([]int, len(optionData)); ix[0] < len(optionData[0]);
     next(ix, optionData) { ... }] *)
Fixpoint cartesian_loop (fuel : nat) (optionData : list (list optionPlaceholder))
         (ix : list nat) (output : list simpleProductOption)
  : outcome (list simpleProductOption) :=
  match fuel with
  | 0 => OutOfFuel
  | S fuel' =>
      match nth_error ix 0, nth_error optionData 0 with
      | Some i0, Some s0 =>
          if (i0 <? length s0)%nat then
            match pick optionData 0 ix with
            | None => Panicked
            | Some phs =>
                match next ix optionData with
                | None => Panicked
                | Some ix' =>
                    cartesian_loop fuel' optionData ix' (output ++ [assemble phs])
                end
            end
          else Returned output
      | _, _ => Panicked
      end
  end.

(** The loop runs once per combination and once more for the exit
    test, which is the budget it is given here; that this budget is
    never exhausted is [generateCartesianProductForOptions_terminates]. *)
Definition generateCartesianProductForOptions (inputOptions : list ProductOption)
  : outcome (list simpleProductOption) :=
  let optionData := placeholders inputOptions in
  cartesian_loop (S (count_combinations optionData)) optionData
                 (repeat 0 (length optionData)) [].


(** ** Products, roots and the creation payload *)

(** The descriptive columns a product root shares with its products;
    the handlers only copy them. *)
Record Descriptive : Type := mkDescriptive {
  Name : string;
  Subtitle : string;
  Description : string;
  Manufacturer : string;
  Brand : string;
  Taxable : bool;
  Cost : float64;
  ProductWeight : float64;
  ProductHeight : float64;
  ProductWidth : float64;
  ProductLength : float64;
  PackageWeight : float64;
  PackageHeight : float64;
  PackageWidth : float64;
  PackageLength : float64
}.

Record Product : Type := mkProduct {
  p_ID : uint64;
  p_ProductRootID : uint64;
  p_SKU : string;
  p_UPC : string;
  p_OptionSummary : string;
  p_Quantity : uint32;
  p_QuantityPerPackage : uint32;
  p_Price : float64;
  p_OnSale : bool;
  p_SalePrice : float64;
  p_ApplicableOptionValues : list ProductOptionValue;
  p_AvailableOn : Time;
  p_CreatedOn : Time;
  p_ArchivedOn : option Time;
  p_Descriptive : Descriptive
}.

Record ProductRoot : Type := mkProductRoot {
  r_ID : uint64;
  r_SKUPrefix : string;
  r_QuantityPerPackage : uint32;
  r_Options : list ProductOption;
  r_Products : list Product;
  r_CreatedOn : Time;
  r_ArchivedOn : option Time;
  r_Descriptive : Descriptive
}.

Record ProductVariantBridge : Type := mkProductVariantBridge {
  b_ID : uint64;
  b_ProductID : uint64;
  b_ProductOptionValueID : uint64;
  b_CreatedOn : Time;
  b_ArchivedOn : option Time
}.

Record Webhook : Type := mkWebhook {
  wh_ID : uint64;
  wh_URL : string;
  wh_EventType : string
}.

(** [ProductOptionCreationInput] of product_options.go *)
Record ProductOptionCreationInput : Type := mkProductOptionCreationInput {
  oci_Name : string;
  oci_Values : list string
}.

(** [models.ProductCreationInput]; [in_AvailableOn] is a pointer in Go. *)
Record ProductCreationInput : Type := mkProductCreationInput {
  in_SKU : string;
  in_UPC : string;
  in_Quantity : uint32;
  in_QuantityPerPackage : uint32;
  in_Price : float64;
  in_OnSale : bool;
  in_SalePrice : float64;
  in_AvailableOn : option Time;
  in_Descriptive : Descriptive;
  in_Options : list ProductOptionCreationInput
}.

(** Field assignments [x.F = v] of the handlers. *)
Definition set_p_ID (v : uint64) (p : Product) : Product :=
  mkProduct v (p_ProductRootID p) (p_SKU p) (p_UPC p) (p_OptionSummary p) (p_Quantity p)
            (p_QuantityPerPackage p) (p_Price p) (p_OnSale p) (p_SalePrice p)
            (p_ApplicableOptionValues p) (p_AvailableOn p) (p_CreatedOn p) (p_ArchivedOn p)
            (p_Descriptive p).

Definition set_p_ProductRootID (v : uint64) (p : Product) : Product :=
  mkProduct (p_ID p) v (p_SKU p) (p_UPC p) (p_OptionSummary p) (p_Quantity p)
            (p_QuantityPerPackage p) (p_Price p) (p_OnSale p) (p_SalePrice p)
            (p_ApplicableOptionValues p) (p_AvailableOn p) (p_CreatedOn p) (p_ArchivedOn p)
            (p_Descriptive p).

Definition set_p_SKU (v : string) (p : Product) : Product :=
  mkProduct (p_ID p) (p_ProductRootID p) v (p_UPC p) (p_OptionSummary p) (p_Quantity p)
            (p_QuantityPerPackage p) (p_Price p) (p_OnSale p) (p_SalePrice p)
            (p_ApplicableOptionValues p) (p_AvailableOn p) (p_CreatedOn p) (p_ArchivedOn p)
            (p_Descriptive p).

Definition set_p_OptionSummary (v : string) (p : Product) : Product :=
  mkProduct (p_ID p) (p_ProductRootID p) (p_SKU p) (p_UPC p) v (p_Quantity p)
            (p_QuantityPerPackage p) (p_Price p) (p_OnSale p) (p_SalePrice p)
            (p_ApplicableOptionValues p) (p_AvailableOn p) (p_CreatedOn p) (p_ArchivedOn p)
            (p_Descriptive p).

Definition set_p_QuantityPerPackage (v : uint32) (p : Product) : Product :=
  mkProduct (p_ID p) (p_ProductRootID p) (p_SKU p) (p_UPC p) (p_OptionSummary p) (p_Quantity p)
            v (p_Price p) (p_OnSale p) (p_SalePrice p)
            (p_ApplicableOptionValues p) (p_AvailableOn p) (p_CreatedOn p) (p_ArchivedOn p)
            (p_Descriptive p).

Definition set_p_ApplicableOptionValues (v : list ProductOptionValue) (p : Product) : Product :=
  mkProduct (p_ID p) (p_ProductRootID p) (p_SKU p) (p_UPC p) (p_OptionSummary p) (p_Quantity p)
            (p_QuantityPerPackage p) (p_Price p) (p_OnSale p) (p_SalePrice p)
            v (p_AvailableOn p) (p_CreatedOn p) (p_ArchivedOn p)
            (p_Descriptive p).

Definition set_p_AvailableOn (v : Time) (p : Product) : Product :=
  mkProduct (p_ID p) (p_ProductRootID p) (p_SKU p) (p_UPC p) (p_OptionSummary p) (p_Quantity p)
            (p_QuantityPerPackage p) (p_Price p) (p_OnSale p) (p_SalePrice p)
            (p_ApplicableOptionValues p) v (p_CreatedOn p) (p_ArchivedOn p)
            (p_Descriptive p).

Definition set_p_CreatedOn (v : Time) (p : Product) : Product :=
  mkProduct (p_ID p) (p_ProductRootID p) (p_SKU p) (p_UPC p) (p_OptionSummary p) (p_Quantity p)
            (p_QuantityPerPackage p) (p_Price p) (p_OnSale p) (p_SalePrice p)
            (p_ApplicableOptionValues p) (p_AvailableOn p) v (p_ArchivedOn p)
            (p_Descriptive p).


Definition set_r_ID (v : uint64) (r : ProductRoot) : ProductRoot :=
  mkProductRoot v (r_SKUPrefix r) (r_QuantityPerPackage r) (r_Options r) (r_Products r)
                (r_CreatedOn r) (r_ArchivedOn r) (r_Descriptive r).

Definition set_r_CreatedOn (v : Time) (r : ProductRoot) : ProductRoot :=
  mkProductRoot (r_ID r) (r_SKUPrefix r) (r_QuantityPerPackage r) (r_Options r) (r_Products r)
                v (r_ArchivedOn r) (r_Descriptive r).

Definition set_r_Options (v : list ProductOption) (r : ProductRoot) : ProductRoot :=
  mkProductRoot (r_ID r) (r_SKUPrefix r) (r_QuantityPerPackage r) v (r_Products r)
                (r_CreatedOn r) (r_ArchivedOn r) (r_Descriptive r).

Definition set_r_Products (v : list Product) (r : ProductRoot) : ProductRoot :=
  mkProductRoot (r_ID r) (r_SKUPrefix r) (r_QuantityPerPackage r) (r_Options r) v
                (r_CreatedOn r) (r_ArchivedOn r) (r_Descriptive r).

Definition set_b_ArchivedOn (v : option Time) (b : ProductVariantBridge) : ProductVariantBridge :=
  mkProductVariantBridge (b_ID b) (b_ProductID b) (b_ProductOptionValueID b) (b_CreatedOn b) v.

Definition set_po_ArchivedOn (v : option Time) (o : ProductOption) : ProductOption :=
  mkProductOption (po_ID o) (po_Name o) (po_ProductRootID o) (po_Values o) (po_CreatedOn o) v.

Definition set_pov_ArchivedOn (v : option Time) (x : ProductOptionValue) : ProductOptionValue :=
  mkProductOptionValue (pov_ID x) (pov_ProductOptionID x) (pov_Value x) (pov_CreatedOn x) v.

(** ** The relational store

    The five tables of the schema and the webhook table.  A row is the
    Go struct it is scanned into; slice fields of a struct are not
    columns and stay empty in a row. *)
Record Tables : Type := mkTables {
  product_roots : list ProductRoot;
  products : list Product;
  product_options : list ProductOption;
  product_option_values : list ProductOptionValue;
  product_variant_bridge : list ProductVariantBridge;
  webhooks : list Webhook
}.

Inductive table : Type :=
| t_product_roots
| t_products
| t_product_options
| t_product_option_values
| t_product_variant_bridge.

Definition table_eqb (a b : table) : bool :=
  match a, b with
  | t_product_roots, t_product_roots
  | t_products, t_products
  | t_product_options, t_product_options
  | t_product_option_values, t_product_option_values
  | t_product_variant_bridge, t_product_variant_bridge => true
  | _, _ => false
  end.

(** What the handlers call on the database handle, on the transaction
    handle and on the [storage.Storer] client, in the order of the
    interface, and the goroutines they start. *)
Inductive Call : Type :=
| CallBegin
| CallCommit
| CallRollback
| CallProductRootWithSKUPrefixExists (sku : string)
| CallCreateProductRoot (r : ProductRoot)
| CallCreateProductOption (o : ProductOption)
| CallCreateProductOptionValue (v : ProductOptionValue)
| CallCreateProduct (p : Product)
| CallCreateMultipleProductVariantBridgesForProductID (productID : uint64) (optionValueIDs : list uint64)
| CallGetProductBySKU (sku : string)
| CallDeleteProductVariantBridge (id : uint64)
| CallDeleteProductVariantBridgeByProductID (productID : uint64)
| CallDeleteProduct (id : uint64)
| CallGetWebhooksByEventType (eventType : string)
| GoCallWebhook (wh : Webhook).

(** A call together with the error it returned, if any. *)
Definition Event : Type := (Call * option error)%type.

(** The world a handler runs in.
    - [committed]: the rows every connection sees.
    - [tx]: the working copy of the handler's open transaction, if any.
    - [serial]: the last value drawn from each table's id sequence;
      sequences do not take part in transactions.
    - [clock]: what [NOW()] evaluates to.
    - [faults]: the refusals of the engine (constraint violations, lost
      connections, ...): the call issued when the trace holds [n] events
      fails with [faults n] when that is an error.
    - [trace]: every call issued so far, oldest first. *)
Record World : Type := mkWorld {
  committed : Tables;
  tx : option Tables;
  serial : table -> N;
  clock : Time;
  faults : nat -> option error;
  trace : list Event
}.

Definition record_call (c : Call) (e : option error) (w : World) : World :=
  mkWorld (committed w) (tx w) (serial w) (clock w) (faults w) (trace w ++ [(c, e)]).

Definition set_tx (t : option Tables) (w : World) : World :=
  mkWorld (committed w) t (serial w) (clock w) (faults w) (trace w).

Definition set_committed (t : Tables) (w : World) : World :=
  mkWorld t (tx w) (serial w) (clock w) (faults w) (trace w).

Definition set_serial (s : table -> N) (w : World) : World :=
  mkWorld (committed w) (tx w) s (clock w) (faults w) (trace w).

Definition nextval (t : table) (s : table -> N) : N := N.succ (s t).

Definition advance (t : table) (s : table -> N) : table -> N :=
  fun t' => (if table_eqb t t' then N.succ else fun n => n) (s t').

Definition error_of {A : Type} (r : result A) : option error :=
  match r with
  | Ok _ => None
  | Err e => Some e
  end.

(** [db.Begin()], [tx.Commit()] and [tx.Rollback()] of [database/sql].
    A transaction works on a copy of the committed rows; committing
    publishes the copy, rolling back drops it.  A commit that fails
    publishes nothing and ends the transaction all the same. *)
Definition db_Begin (w : World) : result unit * World :=
  match faults w (length (trace w)) with
  | Some e => (Err e, record_call CallBegin (Some e) w)
  | None => (Ok tt, record_call CallBegin None (set_tx (Some (committed w)) w))
  end.

Definition tx_Commit (w : World) : result unit * World :=
  match faults w (length (trace w)) with
  | Some e => (Err e, record_call CallCommit (Some e) (set_tx None w))
  | None =>
      match tx w with
      | None => (Err ErrTxDone, record_call CallCommit (Some ErrTxDone) w)
      | Some t => (Ok tt, record_call CallCommit None (set_tx None (set_committed t w)))
      end
  end.

Definition tx_Rollback (w : World) : World :=
  record_call CallRollback None (set_tx None w).

(** The handle a [Storer] method is given: the database itself (its
    statement commits on its own) or the open transaction. *)
Inductive Querier : Type :=
| QDB
| QTx.

(** What a statement does to the rows it runs on, given [NOW()] and the
    sequences. *)
Definition Statement (A : Type) : Type :=
  Time -> (table -> N) -> Tables -> result A * (table -> N) * Tables.

(** One call of a [Storer] method. *)
Definition store_call {A : Type} (q : Querier) (c : Call) (stmt : Statement A) (w : World)
  : result A * World :=
  match faults w (length (trace w)) with
  | Some e => (Err e, record_call c (Some e) w)
  | None =>
      match q with
      | QDB =>
          match stmt (clock w) (serial w) (committed w) with
          | (r, s, t) => (r, record_call c (error_of r) (set_serial s (set_committed t w)))
          end
      | QTx =>
          match tx w with
          | None => (Err ErrTxDone, record_call c (Some ErrTxDone) w)
          | Some t0 =>
              match stmt (clock w) (serial w) t0 with
              | (r, s, t) => (r, record_call c (error_of r) (set_serial s (set_tx (Some t) w)))
              end
          end
      end
  end.

Definition with_product_roots (v : list ProductRoot) (t : Tables) : Tables :=
  mkTables v (products t) (product_options t) (product_option_values t)
           (product_variant_bridge t) (webhooks t).

Definition with_products (v : list Product) (t : Tables) : Tables :=
  mkTables (product_roots t) v (product_options t) (product_option_values t)
           (product_variant_bridge t) (webhooks t).

Definition with_product_options (v : list ProductOption) (t : Tables) : Tables :=
  mkTables (product_roots t) (products t) v (product_option_values t)
           (product_variant_bridge t) (webhooks t).

Definition with_product_option_values (v : list ProductOptionValue) (t : Tables) : Tables :=
  mkTables (product_roots t) (products t) (product_options t) v
           (product_variant_bridge t) (webhooks t).

Definition with_product_variant_bridge (v : list ProductVariantBridge) (t : Tables) : Tables :=
  mkTables (product_roots t) (products t) (product_options t) (product_option_values t)
           v (webhooks t).

Definition is_null {A : Type} (x : option A) : bool :=
  match x with
  | None => true
  | Some _ => false
  end.

(** [UPDATE ... SET ... WHERE ...]: every row the condition selects is
    rewritten, the others are kept, and the order of rows is unchanged. *)
Definition sql_update {R : Type} (where_ : R -> bool) (set_ : R -> R) (rows : list R) : list R :=
  map (fun row => if where_ row then set_ row else row) rows.

(** ** Statements of the sources at hand *)

(** [productVariantBridgeDeletionQuery], run by [DeleteProductVariantBridge]:
    [UPDATE product_variant_bridge SET archived_on = NOW() WHERE id = $1
     RETURNING archived_on].  [QueryRow(...).Scan] reports [sql.ErrNoRows]
    when no row is returned. *)
Definition productVariantBridgeDeletionQuery (id : uint64) : Statement Time :=
  fun now s t =>
    let selected := fun b => N.eqb (b_ID b) id in
    if existsb selected (product_variant_bridge t)
    then (Ok now, s,
          with_product_variant_bridge
            (sql_update selected (set_b_ArchivedOn (Some now)) (product_variant_bridge t)) t)
    else (Err ErrNoRows, s, t).

(** [productVariantBridgeDeletionQueryByProductID], run by
    [DeleteProductVariantBridgeByProductID]:
    [UPDATE product_variant_bridge SET archived_on = NOW()
     WHERE product_id = $1 AND archived_on IS NULL RETURNING archived_on]. *)
Definition productVariantBridgeDeletionQueryByProductID (productID : uint64) : Statement Time :=
  fun now s t =>
    let selected := fun b => N.eqb (b_ProductID b) productID && is_null (b_ArchivedOn b) in
    if existsb selected (product_variant_bridge t)
    then (Ok now, s,
          with_product_variant_bridge
            (sql_update selected (set_b_ArchivedOn (Some now)) (product_variant_bridge t)) t)
    else (Err ErrNoRows, s, t).

(** [productOptionDeletionQuery], run by [archiveProductOption] through
    [Exec]: [UPDATE product_options SET archived_on = NOW()
             WHERE id = $1 AND archived_on IS NULL]. *)
Definition productOptionDeletionQuery (optionID : uint64) : Statement unit :=
  fun now s t =>
    let selected := fun o => N.eqb (po_ID o) optionID && is_null (po_ArchivedOn o) in
    (Ok tt, s,
     with_product_options
       (sql_update selected (set_po_ArchivedOn (Some now)) (product_options t)) t).

(** [productOptionValuesDeletionQueryByOptionID], run by
    [archiveProductOptionValuesForOption] through [Exec]:
    [UPDATE product_option_values SET archived_on = NOW()
     WHERE product_option_id = $1 AND archived_on IS NULL]. *)
Definition productOptionValuesDeletionQueryByOptionID (optionID : uint64) : Statement unit :=
  fun now s t =>
    let selected :=
      fun v => N.eqb (pov_ProductOptionID v) optionID && is_null (pov_ArchivedOn v) in
    (Ok tt, s,
     with_product_option_values
       (sql_update selected (set_pov_ArchivedOn (Some now)) (product_option_values t)) t).

(** The loop of [buildMultiProductVariantBridgeCreationQuery] over
    [optionValueIDs]: [n] is [len(optionValueIDs)] and [ix] the index
    of the element at the head of what is left of the slice. *)
Fixpoint valueStringLoop (n ix : nat) (optionValueIDs : list uint64)
         (valueString : string) (values : list uint64) : string * list uint64 :=
  match optionValueIDs with
  | [] => (valueString, values)
  | id :: rest =>
      let valueString :=
        if Nat.eqb ix 0
        then "($1, $" +++ decimal (ix + 2) +++ ")"
        else valueString +++ newline +++
             "                ($1, $" +++ decimal (ix + 2) +++ ")" in
      let values := values ++ [id] in
      let valueString :=
        if negb (Nat.eqb (n - 1) ix) then valueString +++ "," else valueString in
      valueStringLoop n (S ix) rest valueString values
  end.

(** [buildMultiProductVariantBridgeCreationQuery]: the text of the
    statement, character for character, and its arguments. *)
Definition buildMultiProductVariantBridgeCreationQuery (productID : uint64)
           (optionValueIDs : list uint64) : string * list uint64 :=
  match valueStringLoop (length optionValueIDs) 0 optionValueIDs "" [productID] with
  | (valueString, values) =>
      (newline +++
       "        INSERT INTO product_variant_bridge" +++ newline +++
       "            (" +++ newline +++
       "                product_id, product_option_value_id" +++ newline +++
       "            )" +++ newline +++
       "        VALUES" +++ newline +++
       "            (" +++ newline +++
       "                " +++ valueString +++ newline +++
       "            )" +++ newline +++
       "        RETURNING" +++ newline +++
       "            id, created_on;" +++ newline +++
       "    ",
       values)
  end.

(** An expression of a [VALUES] list: a placeholder [$n], or
    expressions between parentheses.  One expression between parentheses
    is that expression; two or more are a row constructor, a value of
    type record. *)
#[warnings="-register-all"]
Inductive sql_expr : Type :=
| Placeholder (n : nat)
| Parenthesised (es : list sql_expr).

Fixpoint print_expr (e : sql_expr) : string :=
  match e with
  | Placeholder n => "$" +++ decimal n
  | Parenthesised es => "(" +++ strings.Join (map print_expr es) ", " +++ ")"
  end.

(** [INSERT INTO product_variant_bridge (product_id,
    product_option_value_id) VALUES rows RETURNING id, created_on;] as
    the builder lays it out: every row of the [VALUES] list between its
    own parentheses. *)
Definition print_row (es : list sql_expr) : string :=
  "(" +++ newline +++
  "                " +++
  strings.Join (map print_expr es) ("," +++ newline +++ "                ") +++ newline +++
  "            )".

Definition print_insert (rows : list (list sql_expr)) : string :=
  newline +++
  "        INSERT INTO product_variant_bridge" +++ newline +++
  "            (" +++ newline +++
  "                product_id, product_option_value_id" +++ newline +++
  "            )" +++ newline +++
  "        VALUES" +++ newline +++
  "            " +++
  strings.Join (map print_row rows) ("," +++ newline +++ "            ") +++ newline +++
  "        RETURNING" +++ newline +++
  "            id, created_on;" +++ newline +++
  "    ".

(** The [VALUES] list that the text built for [optionValueIDs] spells
    ([buildMultiProductVariantBridgeCreationQuery_text] below): the
    parentheses of the template enclose all the pairs [($1, $ix+2)], so
    the list has a single row, and the expressions of that row are the
    pairs. *)
Definition multiProductVariantBridgeCreationValues (optionValueIDs : list uint64)
  : list (list sql_expr) :=
  [map (fun ix => Parenthesised [Placeholder 1; Placeholder (ix + 2)])
       (seq 0 (length optionValueIDs))].

(** The argument bound to the placeholder [$k]. *)
Definition bound (args : list uint64) (k : nat) : option uint64 :=
  match k with
  | 0 => None
  | S k' => nth_error args k'
  end.

(** The [bigint] an expression gives for a column; a row constructor
    gives none. *)
Fixpoint scalar (args : list uint64) (e : sql_expr) : option uint64 :=
  match e with
  | Placeholder n => bound args n
  | Parenthesised [e'] => scalar args e'
  | Parenthesised _ => None
  end.

(** The rows an [INSERT] with the two target columns [product_id] and
    [product_option_value_id] adds: every row of the [VALUES] list must
    have exactly two expressions and each must give a [bigint]; [None]
    when the statement is refused.  PostgreSQL refuses a row with fewer
    expressions ("INSERT has more target columns than expressions"),
    with more ("INSERT has more expressions than target columns"), and
    a row constructor for a [bigint] column ("column is of type bigint
    but expression is of type record"). *)
Fixpoint insert_bridges (now : Time) (s : table -> N) (rows : list (list sql_expr))
         (args : list uint64) (inserted : list ProductVariantBridge)
  : option ((table -> N) * list ProductVariantBridge) :=
  match rows with
  | [] => Some (s, inserted)
  | [a; b] :: rest =>
      match scalar args a, scalar args b with
      | Some productID, Some optionValueID =>
          insert_bridges now (advance t_product_variant_bridge s) rest args
            (inserted ++ [mkProductVariantBridge (nextval t_product_variant_bridge s)
                                                 productID optionValueID now None])
      | _, _ => None
      end
  | _ :: _ => None
  end.

(** The statement of [buildMultiProductVariantBridgeCreationQuery] run
    by [Exec]: a statement that is refused inserts nothing. *)
Definition multiProductVariantBridgeCreationQuery (productID : uint64)
           (optionValueIDs : list uint64) : Statement unit :=
  fun now s t =>
    match buildMultiProductVariantBridgeCreationQuery productID optionValueIDs with
    | (_, args) =>
        match insert_bridges now s (multiProductVariantBridgeCreationValues optionValueIDs)
                             args (product_variant_bridge t) with
        | Some (s', rows) => (Ok tt, s', with_product_variant_bridge rows t)
        | None => (Err (ErrOther "the INSERT statement is refused"), s, t)
        end
    end.

(** ** The [storage.Storer] methods the handlers call *)

Definition DeleteProductVariantBridge (q : Querier) (id : uint64)
  : World -> result Time * World :=
  store_call q (CallDeleteProductVariantBridge id) (productVariantBridgeDeletionQuery id).


Definition CreateMultipleProductVariantBridgesForProductID (q : Querier) (productID : uint64)
           (optionValueIDs : list uint64) : World -> result unit * World :=
  store_call q (CallCreateMultipleProductVariantBridgesForProductID productID optionValueIDs)
             (multiProductVariantBridgeCreationQuery productID optionValueIDs).

(** Modelled from the spec: the Postgres implementations of the methods
    below are not among the sources at hand; only their signatures in
    storage.go are.  Section 4.3: a create returns the generated id and
    the creation timestamp, an archive returns the archive timestamp, an
    existence check by unique key answers for live rows. *)
Definition ProductRootWithSKUPrefixExists (q : Querier) (skuPrefix : string)
  : World -> result bool * World :=
  store_call q (CallProductRootWithSKUPrefixExists skuPrefix)
    (fun _ s t =>
       (Ok (existsb (fun r => String.eqb (r_SKUPrefix r) skuPrefix && is_null (r_ArchivedOn r))
                    (product_roots t)), s, t)).

(** Modelled from the spec: see [ProductRootWithSKUPrefixExists]. *)
Definition CreateProductRoot (q : Querier) (r : ProductRoot)
  : World -> result (uint64 * Time) * World :=
  store_call q (CallCreateProductRoot r)
    (fun now s t =>
       let id := nextval t_product_roots s in
       (Ok (id, now), advance t_product_roots s,
        with_product_roots
          (product_roots t ++
             [set_r_Products [] (set_r_Options [] (set_r_CreatedOn now (set_r_ID id r)))]) t)).

(** Modelled from the spec: see [ProductRootWithSKUPrefixExists]. *)
Definition CreateProductOption (q : Querier) (o : ProductOption)
  : World -> result (uint64 * Time) * World :=
  store_call q (CallCreateProductOption o)
    (fun now s t =>
       let id := nextval t_product_options s in
       (Ok (id, now), advance t_product_options s,
        with_product_options
          (product_options t ++
             [mkProductOption id (po_Name o) (po_ProductRootID o) [] now None]) t)).

(** Modelled from the spec: see [ProductRootWithSKUPrefixExists]. *)
Definition CreateProductOptionValue (q : Querier) (v : ProductOptionValue)
  : World -> result (uint64 * Time) * World :=
  store_call q (CallCreateProductOptionValue v)
    (fun now s t =>
       let id := nextval t_product_option_values s in
       (Ok (id, now), advance t_product_option_values s,
        with_product_option_values
          (product_option_values t ++
             [mkProductOptionValue id (pov_ProductOptionID v) (pov_Value v) now None]) t)).

(** Modelled from the spec: see [ProductRootWithSKUPrefixExists].  The
    three values returned are the id, the creation time and the time the
    product becomes available, in the order part_000 assigns them. *)
Definition CreateProduct (q : Querier) (p : Product)
  : World -> result (uint64 * Time * Time) * World :=
  store_call q (CallCreateProduct p)
    (fun now s t =>
       let id := nextval t_products s in
       (Ok (id, now, p_AvailableOn p), advance t_products s,
        with_products
          (products t ++
             [set_p_ApplicableOptionValues [] (set_p_CreatedOn now (set_p_ID id p))]) t)).



(** Modelled from the spec: see [ProductRootWithSKUPrefixExists]. *)
Definition GetWebhooksByEventType (q : Querier) (eventType : string)
  : World -> result (list Webhook) * World :=
  store_call q (CallGetWebhooksByEventType eventType)
    (fun _ s t =>
       (Ok (filter (fun wh => String.eqb (wh_EventType wh) eventType) (webhooks t)), s, t)).

(** ** Requests and responses *)

(** A request body either decodes into the creation payload or does not. *)
Record Request : Type := mkRequest {
  req_body : option ProductCreationInput
}.

(** What a handler writes: the status and what it encodes.
    [notifyOfInvalidRequestBody] answers 400, [respondThatRowDoesNotExist]
    404 and [notifyOfInternalIssue] 500, as the tests of the handlers
    expect. *)
Inductive Response : Type :=
| StatusCreated (body : ProductRoot)
| StatusOK (body : Product)
| StatusBadRequest (err : error)
| StatusNotFound (itemType identifier : string)
| StatusInternalServerError (err : error) (attempting : string).

Definition notifyOfInvalidRequestBody (err : error) : Response := StatusBadRequest err.

Definition notifyOfInternalIssue (err : error) (attempting : string) : Response :=
  StatusInternalServerError err attempting.


Definition ProductCreatedWebhookEvent : string := "product_created".
Definition ProductUpdatedWebhookEvent : string := "product_updated".

(** Modelled from the spec: [validateRequestInput] is not among the
    sources at hand.  Section 7 lists as validation errors, reported
    before any transaction is opened, a malformed payload and an option
    with zero values; invalid SKU characters are refused by the handler
    itself through [restrictedStringIsValid]. *)
Definition validateRequestInput_spec (req : Request) : result ProductCreationInput :=
  match req_body req with
  | None => Err (ErrOther "invalid input provided in request body")
  | Some productInput =>
      if existsb (fun o => match oci_Values o with [] => true | _ => false end)
                 (in_Options productInput)
      then Err (ErrOther "option without values")
      else Ok productInput
  end.

(** A validation that accepts whatever decodes. *)
Definition accept_decoded (req : Request) : result ProductCreationInput :=
  match req_body req with
  | None => Err (ErrOther "invalid input provided in request body")
  | Some productInput => Ok productInput
  end.

(** [validateRequestInput] and [restrictedStringIsValid] are not among
    the sources at hand: the handlers are parametric in them.  What
    [validateRequestInput] decodes the request body into is its result. *)
Variable validateRequestInput : Request -> result ProductCreationInput.
Variable restrictedStringIsValid : string -> bool.

(** [newProductFromCreationInput] *)
Definition newProductFromCreationInput (i : ProductCreationInput) : Product :=
  {| p_ID := 0%N;
     p_ProductRootID := 0%N;
     p_SKU := in_SKU i;
     p_UPC := in_UPC i;
     p_OptionSummary := EmptyString;
     p_Quantity := in_Quantity i;
     p_QuantityPerPackage := in_QuantityPerPackage i;
     p_Price := in_Price i;
     p_OnSale := in_OnSale i;
     p_SalePrice := in_SalePrice i;
     p_ApplicableOptionValues := [];
     p_AvailableOn := match in_AvailableOn i with Some t => t | None => 0%N end;
     p_CreatedOn := 0%N;
     p_ArchivedOn := None;
     p_Descriptive := in_Descriptive i |}.

(** Modelled from the spec: [createProductRootFromProduct] is not among
    the sources at hand.  The root takes the product's SKU as its SKU
    prefix and the columns it shares with its products. *)
Definition createProductRootFromProduct (p : Product) : ProductRoot :=
  {| r_ID := 0%N;
     r_SKUPrefix := p_SKU p;
     r_QuantityPerPackage := p_QuantityPerPackage p;
     r_Options := [];
     r_Products := [];
     r_CreatedOn := 0%N;
     r_ArchivedOn := None;
     r_Descriptive := p_Descriptive p |}.

(** [uint32(math.Max(float64(q), 1))]: every [uint32] is a binary64
    number, so both conversions are exact and the result is the larger
    of [q] and [1]. *)
Definition atLeastOne (q : uint32) : uint32 := N.max q 1.

(** ** Option and value creation (product_options.go) *)

(** [for _, value := range in.Values { ... }] of
    [createProductOptionAndValuesInDBFromInput]. *)
Fixpoint createValues (optionID : uint64) (values : list string)
         (created : list ProductOptionValue) (w : World)
  : result (list ProductOptionValue) * World :=
  match values with
  | [] => (Ok created, w)
  | value :: rest =>
      let newOptionValue := mkProductOptionValue 0%N optionID value 0%N None in
      match CreateProductOptionValue QTx newOptionValue w with
      | (Err e, w1) => (Err e, w1)
      | (Ok (newOptionValueID, optionCreatedOn), w1) =>
          createValues optionID rest
            (created ++ [mkProductOptionValue newOptionValueID optionID value
                                              optionCreatedOn None]) w1
      end
  end.

Definition createProductOptionAndValuesInDBFromInput (i : ProductOptionCreationInput)
           (productRootID : uint64) (w : World) : result ProductOption * World :=
  let newProductOption := mkProductOption 0%N (oci_Name i) productRootID [] 0%N None in
  match CreateProductOption QTx newProductOption w with
  | (Err e, w1) => (Err e, w1)
  | (Ok (id, createdOn), w1) =>
      match createValues id (oci_Values i) [] w1 with
      | (Err e, w2) => (Err e, w2)
      | (Ok values, w2) =>
          (Ok (mkProductOption id (oci_Name i) productRootID values createdOn None), w2)
      end
  end.

(** ** Product creation (part_000) *)

(** [for _, option := range productOptionData { ... }] of
    [createProductsInDBFromOptionRows]. *)
Fixpoint createProductsLoop (r : ProductRoot) (np : Product)
         (productOptionData : list simpleProductOption) (createdProducts : list Product)
         (w : World) : result (list Product) * World :=
  match productOptionData with
  | [] => (Ok createdProducts, w)
  | option :: rest =>
      let p := set_p_SKU (r_SKUPrefix r +++ "_" +++ SKUPostfix option)
                 (set_p_OptionSummary (OptionSummary option)
                    (set_p_ApplicableOptionValues (OriginalValues option)
                       (set_p_ProductRootID (r_ID r) np))) in
      match CreateProduct QTx p w with
      | (Err e, w1) => (Err e, w1)
      | (Ok (id, createdOn, availableOn), w1) =>
          let p := set_p_AvailableOn availableOn (set_p_CreatedOn createdOn (set_p_ID id p)) in
          match CreateMultipleProductVariantBridgesForProductID QTx (p_ID p) (IDs option) w1 with
          | (Err e, w2) => (Err e, w2)
          | (Ok _, w2) => createProductsLoop r np rest (createdProducts ++ [p]) w2
          end
      end
  end.

Definition createProductsInDBFromOptionRows (r : ProductRoot) (np : Product) (w : World)
  : outcome (result (list Product) * World) :=
  match generateCartesianProductForOptions (r_Options r) with
  | Returned productOptionData => Returned (createProductsLoop r np productOptionData [] w)
  | Panicked => Panicked
  | OutOfFuel => OutOfFuel
  end.

(** [for _, optionAndValues := range productInput.Options { ... }] of the
    creation handler; an error leaves the loop, and the handler. *)
Fixpoint createOptionsLoop (options : list ProductOptionCreationInput)
         (productRoot : ProductRoot) (w : World) : result ProductRoot * World :=
  match options with
  | [] => (Ok productRoot, w)
  | optionAndValues :: rest =>
      match createProductOptionAndValuesInDBFromInput optionAndValues (r_ID productRoot) w with
      | (Err e, w1) => (Err e, w1)
      | (Ok o, w1) =>
          createOptionsLoop rest (set_r_Options (r_Options productRoot ++ [o]) productRoot) w1
      end
  end.

Definition is_ErrNoRows (e : error) : bool :=
  match e with
  | ErrNoRows => true
  | _ => false
  end.

(** The end of the creation and archival handlers: the webhooks for the
    event are looked up on the database handle and one goroutine is
    started for each, then the answer is written. *)
Definition callWebhooks (eventType : string) (answer : Response) (w : World)
  : Response * World :=
  match GetWebhooksByEventType QDB eventType w with
  | (Err e, w1) =>
      if is_ErrNoRows e then (answer, w1)
      else (notifyOfInternalIssue e "retrieve webhooks from database", w1)
  | (Ok whs, w1) =>
      (answer, fold_left (fun w' wh => record_call (GoCallWebhook wh) None w') whs w1)
  end.

(** The handler returned by [buildProductCreationHandler] (part_000),
    the specification's [CommitCatalog]. *)
Definition buildProductCreationHandler (req : Request) (w : World)
  : outcome (Response * World) :=
  match validateRequestInput req with
  | Err err => Returned (notifyOfInvalidRequestBody err, w)
  | Ok productInput =>
  if negb (restrictedStringIsValid (in_SKU productInput)) then
    Returned (notifyOfInvalidRequestBody
                (ErrOther ("The sku received (" +++ in_SKU productInput +++ ") is invalid")), w)
  else
  (* can't create a product with a sku that already exists! *)
  let alreadyExists :=
    ErrOther ("product with sku '" +++ in_SKU productInput +++ "' already exists") in
  match ProductRootWithSKUPrefixExists QDB (in_SKU productInput) w with
  | (Err _, w1) => Returned (notifyOfInvalidRequestBody alreadyExists, w1)
  | (Ok true, w1) => Returned (notifyOfInvalidRequestBody alreadyExists, w1)
  | (Ok false, w1) =>
  match db_Begin w1 with
  | (Err err, w2) =>
      Returned (notifyOfInternalIssue err "create new database transaction", w2)
  | (Ok _, w2) =>
  let newProduct := newProductFromCreationInput productInput in
  let productRoot := createProductRootFromProduct newProduct in
  match CreateProductRoot QTx productRoot w2 with
  | (Err err, w3) =>
      Returned (notifyOfInternalIssue err "insert product options and values in database",
                tx_Rollback w3)
  | (Ok (id, createdOn), w3) =>
  let productRoot := set_r_CreatedOn createdOn (set_r_ID id productRoot) in
  let newProduct :=
    set_p_QuantityPerPackage (atLeastOne (p_QuantityPerPackage newProduct)) newProduct in
  match createOptionsLoop (in_Options productInput) productRoot w3 with
  | (Err err, w4) =>
      Returned (notifyOfInternalIssue err "insert product options and values in database",
                tx_Rollback w4)
  | (Ok productRoot, w4) =>
  let commitAndAnswer := fun (productRoot : ProductRoot) (w5 : World) =>
    match tx_Commit w5 with
    | (Err err, w6) => Returned (notifyOfInternalIssue err "close out transaction", w6)
    | (Ok _, w6) =>
        Returned (callWebhooks ProductCreatedWebhookEvent (StatusCreated productRoot) w6)
    end in
  match in_Options productInput with
  | [] =>
      let newProduct := set_p_ProductRootID (r_ID productRoot) newProduct in
      match CreateProduct QTx newProduct w4 with
      | (Err err, w5) =>
          Returned (notifyOfInternalIssue err "insert product in database", tx_Rollback w5)
      | (Ok (pid, pCreatedOn, pAvailableOn), w5) =>
          let newProduct :=
            set_p_AvailableOn pAvailableOn (set_p_CreatedOn pCreatedOn (set_p_ID pid newProduct)) in
          commitAndAnswer (set_r_Products [newProduct] (set_r_Options [] productRoot)) w5
      end
  | _ :: _ =>
      match createProductsInDBFromOptionRows productRoot newProduct w4 with
      | Panicked => Panicked
      | OutOfFuel => OutOfFuel
      | Returned (Err err, w5) =>
          Returned (notifyOfInternalIssue err "insert products in database", tx_Rollback w5)
      | Returned (Ok createdProducts, w5) =>
          commitAndAnswer (set_r_Products createdProducts productRoot) w5
      end
  end
  end end end end
  end.


(** ** Concrete inputs

    The shirt and the mug of the specification's scenarios, an empty
    store, and stores that refuse one call. *)
Definition plain : Descriptive :=
  mkDescriptive "Shirt" "" "a shirt" "" "" false 5%float 0%float 0%float 0%float 0%float
                0%float 0%float 0%float 0%float.

Definition shirt : ProductCreationInput :=
  mkProductCreationInput "shirt" "" 10%N 0%N 12.5%float false 0%float None plain
    [mkProductOptionCreationInput "Size" ["Small"; "Medium"; "Large"];
     mkProductOptionCreationInput "Color" ["Red"; "Blue"]].

Definition mug : ProductCreationInput :=
  mkProductCreationInput "mug" "" 10%N 0%N 12.5%float false 0%float None plain [].

(** A payload whose first option has no value, one whose second option
    has no value, and one that names the same value twice. *)
Definition hollow : ProductCreationInput :=
  mkProductCreationInput "shirt" "" 10%N 0%N 12.5%float false 0%float None plain
    [mkProductOptionCreationInput "Size" [];
     mkProductOptionCreationInput "Color" ["Red"; "Blue"]].

Definition hollow_later : ProductCreationInput :=
  mkProductCreationInput "shirt" "" 10%N 0%N 12.5%float false 0%float None plain
    [mkProductOptionCreationInput "Size" ["Small"];
     mkProductOptionCreationInput "Color" []].

Definition twins : ProductCreationInput :=
  mkProductCreationInput "shirt" "" 10%N 0%N 12.5%float false 0%float None plain
    [mkProductOptionCreationInput "Color" ["Red"; "Red"]].

Definition no_rows : Tables := mkTables [] [] [] [] [] [].

Definition never : nat -> option error := fun _ => None.

Definition only (n : nat) (e : error) : nat -> option error :=
  fun k => if Nat.eqb k n then Some e else None.

Definition fresh (f : nat -> option error) : World :=
  mkWorld no_rows None (fun _ => 0%N) 7%N f [].

(** A store holding one variant with two bridge rows, the second of
    which was archived at time 5; the clock now shows 9. *)
Definition cup : Product :=
  mkProduct 1%N 1%N "cup_red" "" "Color: Red" 10%N 1%N 12.5%float false 0%float [] 0%N 3%N
            None plain.

Definition live_bridge : ProductVariantBridge :=
  mkProductVariantBridge 1%N 1%N 1%N 3%N None.

Definition archived_bridge : ProductVariantBridge :=
  mkProductVariantBridge 2%N 1%N 2%N 3%N (Some 5%N).

Definition stocked (f : nat -> option error) : World :=
  mkWorld (mkTables [] [cup] [] [] [live_bridge; archived_bridge] [])
          None (fun _ => 2%N) 9%N f [].

(** Options as the store returns them, for the enumerator alone. *)
Definition sizes_and_colors : list ProductOption :=
  [mkProductOption 1%N "Size" 1%N
     [mkProductOptionValue 1%N 1%N "Small" 7%N None;
      mkProductOptionValue 2%N 1%N "Medium" 7%N None;
      mkProductOptionValue 3%N 1%N "Large" 7%N None] 7%N None;
   mkProductOption 2%N "Color" 1%N
     [mkProductOptionValue 4%N 2%N "Red" 7%N None;
      mkProductOptionValue 5%N 2%N "Blue" 7%N None] 7%N None].

(** ** Structural readings of the enumerator's loops, used in the proofs *)

(** The value selected in every list by a vector of indices. *)
Fixpoint sel {A : Type} (sl : list (list A)) (ix : list nat) {struct ix}
  : option (list A) :=
  match ix with
  | [] => Some []
  | k :: ix' =>
      match sl with
      | [] => None
      | s :: sl' =>
          match nth_error s k with
          | None => None
          | Some a =>
              match sel sl' ix' with
              | None => None
              | Some r => Some (a :: r)
              end
          end
      end
  end.

(** One step of an odometer whose wheels all wrap around: the new
    positions, and whether the leftmost wheel wrapped. *)
Fixpoint step {A : Type} (sl : list (list A)) (t : list nat) : bool * list nat :=
  match sl, t with
  | s :: sl', i :: t' =>
      match step sl' t' with
      | (true, t'') =>
          if (S i <? length s)%nat then (false, S i :: t'') else (true, 0 :: t'')
      | (false, t'') => (false, i :: t'')
      end
  | _, _ => (true, [])
  end.

(** [next] read structurally: the first wheel never wraps. *)
Definition next_spec {A : Type} (sl : list (list A)) (ix : list nat) : list nat :=
  match sl, ix with
  | _ :: sl', k :: t =>
      match step sl' t with
      | (true, t') => S k :: t'
      | (false, t') => k :: t'
      end
  | _, _ => ix
  end.

(** [run sl t L]: stepping the wrapping odometer from [t] until it wraps
    selects the rows [L], in this order. *)
Inductive run {A : Type} (sl : list (list A)) : list nat -> list (list A) -> Prop :=
| run_last : forall t r,
    length t = length sl -> sel sl t = Some r -> fst (step sl t) = true ->
    run sl t [r]
| run_next : forall t r t' L,
    length t = length sl -> sel sl t = Some r -> step sl t = (false, t') ->
    run sl t' L ->
    run sl t (r :: L).

(** The combination the specification derives from one selection of
    values: the identifiers, the "OptionName: Value" pairs joined by
    ", ", the lowercased values joined by "_", and the values. *)
Definition combination (options : list ProductOption) (values : list ProductOptionValue)
  : simpleProductOption :=
  {| IDs := map pov_ID values;
     OptionSummary :=
       strings.Join (map (fun ov => po_Name (fst ov) +++ ": " +++ pov_Value (snd ov))
                         (combine options values)) ", ";
     SKUPostfix := strings.Join (map (fun v => ToLower (pov_Value v)) values) "_";
     OriginalValues := values |}.

(** ** The enumerator *)

Lemma set_nth_app {A : Type} (pre suf : list A) (v x : A) :
  set_nth (pre ++ v :: suf) (length pre) x = pre ++ x :: suf.
Proof.
  induction pre as [|a pre IH]; simpl; [reflexivity|].
  now rewrite IH.
Qed.

Lemma nth_error_middle {A : Type} (pre suf : list A) (v : A) :
  nth_error (pre ++ v :: suf) (length pre) = Some v.
Proof.
  induction pre as [|a pre IH]; simpl; [reflexivity | exact IH].
Qed.

Lemma step_length {A : Type} (sl : list (list A)) :
  forall t, length t = length sl -> length (snd (step sl t)) = length sl.
Proof.
  induction sl as [|s sl IH]; intros [|i t] Hlen; simpl in *; try discriminate; auto.
  injection Hlen as Hlen. specialize (IH t Hlen).
  destruct (step sl t) as [[|] t'']; simpl in *.
  - destruct (S i <? length s)%nat; simpl; now rewrite IH.
  - now rewrite IH.
Qed.

Lemma step_carry {A : Type} (sl : list (list A)) :
  forall t t', length t = length sl -> step sl t = (true, t') -> t' = repeat 0 (length sl).
Proof.
  induction sl as [|s sl IH]; intros [|i t] t' Hlen Hstep; simpl in *; try discriminate.
  - now inversion Hstep.
  - injection Hlen as Hlen.
    destruct (step sl t) as [[|] t''] eqn:E.
    + destruct (S i <? length s)%nat; inversion Hstep; subst.
      now rewrite (IH t t'' Hlen E).
    + discriminate.
Qed.

Lemma step_snoc {A : Type} (s : list A) (v : nat) :
  forall (sl : list (list A)) (t : list nat),
    length t = length sl ->
    step (sl ++ [s]) (t ++ [v]) =
      if (S v <? length s)%nat then (false, t ++ [S v])
      else (fst (step sl t), snd (step sl t) ++ [0]).
Proof.
  induction sl as [|s0 sl IH]; intros [|i t] Hlen; simpl in *; try discriminate.
  - destruct (S v <? length s)%nat; reflexivity.
  - injection Hlen as Hlen. rewrite (IH t Hlen).
    destruct (S v <? length s)%nat; [reflexivity|].
    destruct (step sl t) as [[|] t'']; simpl; [|reflexivity].
    destruct (S i <? length s0)%nat; reflexivity.
Qed.

Lemma next_spec_snoc {A : Type} (s : list A) (v : nat) (sl : list (list A)) (pre : list nat) :
  pre <> [] -> length pre = length sl ->
  next_spec (sl ++ [s]) (pre ++ [v]) =
    if (S v <? length s)%nat then pre ++ [S v] else next_spec sl pre ++ [0].
Proof.
  intros Hne Hlen.
  destruct pre as [|k t]; [congruence|].
  destruct sl as [|s0 sl]; [discriminate|].
  simpl in Hlen. injection Hlen as Hlen.
  simpl. rewrite (step_snoc s v sl t Hlen).
  destruct (S v <? length s)%nat; [reflexivity|].
  destruct (step sl t) as [[|] t']; reflexivity.
Qed.

Lemma firstn_succ_nth_error {A : Type} (l : list A) :
  forall n a, nth_error l n = Some a -> firstn (S n) l = firstn n l ++ [a].
Proof.
  induction l as [|x l IH]; intros [|n] a H; simpl in *; try discriminate.
  - now inversion H.
  - now rewrite (IH n a H).
Qed.

(** The closure [next], entered at [j = len(ix) - 1], does to the first
    [j + 1] positions what [next_spec] does, and leaves the others. *)
Lemma next_from_app (sl : list (list optionPlaceholder)) :
  forall j pre suf,
    length pre = j -> pre <> [] -> j <= length sl ->
    next_from j (pre ++ suf) sl = Some (next_spec (firstn j sl) pre ++ suf).
Proof.
  induction j as [|j IH]; intros pre suf Hlen Hne Hle.
  - destruct pre; [congruence | discriminate].
  - destruct (exists_last Hne) as [pre' [v ->]].
    rewrite length_app in Hlen. simpl in Hlen.
    assert (Hj : j = length pre') by lia. subst j.
    rewrite <- app_assoc. cbn [next_from app].
    rewrite nth_error_middle, set_nth_app.
    destruct (Nat.eqb_spec (length pre') 0) as [Hz|Hnz].
    + destruct pre'; [|discriminate].
      destruct sl as [|s0 sl']; [simpl in Hle; lia|]. reflexivity.
    + destruct (nth_error sl (length pre')) as [s|] eqn:Es.
      2:{ apply nth_error_None in Es. lia. }
      rewrite (firstn_succ_nth_error _ _ _ Es).
      assert (Hpre : pre' <> []) by (destruct pre'; simpl in Hnz; [lia | discriminate]).
      assert (Hfl : length pre' = length (firstn (length pre') sl)).
      { rewrite length_firstn. lia. }
      rewrite (next_spec_snoc s v (firstn (length pre') sl) pre' Hpre Hfl).
      destruct (S v <? length s)%nat.
      * now rewrite <- app_assoc.
      * rewrite set_nth_app.
        rewrite (IH pre' (0 :: suf) eq_refl Hpre ltac:(lia)).
        now rewrite <- app_assoc.
Qed.

Lemma next_is_next_spec (sl : list (list optionPlaceholder)) (ix : list nat) :
  ix <> [] -> length ix = length sl -> next ix sl = Some (next_spec sl ix).
Proof.
  intros Hne Hlen. unfold next.
  rewrite <- (app_nil_r ix) at 2.
  rewrite (next_from_app sl (length ix) ix [] eq_refl Hne ltac:(lia)).
  rewrite Hlen, firstn_all, app_nil_r. reflexivity.
Qed.

Lemma skipn_nth_error_some {A : Type} (l : list A) :
  forall j a, nth_error l j = Some a -> skipn j l = a :: skipn (S j) l.
Proof.
  induction l as [|x l IH]; intros [|j] a H; simpl in *; try discriminate.
  - now inversion H.
  - exact (IH j a H).
Qed.

Lemma skipn_nth_error_none {A : Type} (l : list A) :
  forall j, nth_error l j = None -> skipn j l = [].
Proof.
  intros j H. apply skipn_all2. now apply nth_error_None.
Qed.

(** The inner loop selects, position by position, what [sel] selects. *)
Lemma pick_is_sel (optionData : list (list optionPlaceholder)) :
  forall ix j, pick optionData j ix = sel (skipn j optionData) ix.
Proof.
  induction ix as [|k ix IH]; intros j; simpl; [reflexivity|].
  destruct (nth_error optionData j) as [s|] eqn:Es.
  - rewrite (skipn_nth_error_some _ _ _ Es).
    destruct (nth_error s k); [|reflexivity].
    now rewrite IH.
  - now rewrite (skipn_nth_error_none _ _ Es).
Qed.

Lemma run_length {A : Type} (sl : list (list A)) (t : list nat) (L : list (list A)) :
  run sl t L -> length t = length sl.
Proof. now destruct 1. Qed.

(** A run of the wheels after the first one is a block of the run with
    the first wheel at [k]: the block is followed by the run from
    [k + 1] when the first wheel has a position left, and ends the run
    otherwise. *)
Lemma run_block {A : Type} (s : list A) (sl : list (list A)) (t : list nat) (L : list (list A)) :
  run sl t L ->
  forall k a, nth_error s k = Some a ->
    (S k < length s ->
     forall L2, run (s :: sl) (S k :: repeat 0 (length sl)) L2 ->
                run (s :: sl) (k :: t) (map (cons a) L ++ L2)) /\
    (~ S k < length s -> run (s :: sl) (k :: t) (map (cons a) L)).
Proof.
  induction 1 as [t r Hlen Hsel Hcarry | t r t' L Hlen Hsel Hstep Hrun IH];
    intros k a Hnth.
  - destruct (step sl t) as [c t''] eqn:E. simpl in Hcarry. subst c.
    pose proof (step_carry sl t t'' Hlen E) as ->.
    split; intros Hk.
    + intros L2 HL2. simpl. apply run_next with (t' := S k :: repeat 0 (length sl)).
      * simpl. now rewrite Hlen.
      * simpl. now rewrite Hnth, Hsel.
      * simpl. rewrite E. apply Nat.ltb_lt in Hk. now rewrite Hk.
      * exact HL2.
    + simpl. apply run_last.
      * simpl. now rewrite Hlen.
      * simpl. now rewrite Hnth, Hsel.
      * simpl. rewrite E. apply Nat.ltb_nlt in Hk. now rewrite Hk.
  - destruct (IH k a Hnth) as [IH1 IH2].
    assert (Hhere : run (s :: sl) (k :: t') (map (cons a) L) ->
                    run (s :: sl) (k :: t) (map (cons a) (r :: L))).
    { intros Hr. simpl. apply run_next with (t' := k :: t'); auto.
      - simpl. now rewrite Hlen.
      - simpl. now rewrite Hnth, Hsel.
      - simpl. now rewrite Hstep. }
    split; intros Hk.
    + intros L2 HL2. simpl. apply run_next with (t' := k :: t').
      * simpl. now rewrite Hlen.
      * simpl. now rewrite Hnth, Hsel.
      * simpl. now rewrite Hstep.
      * now apply IH1.
    + apply Hhere. now apply IH2.
Qed.

(** Started at zero, the wrapping odometer selects the rows of the
    specification's odometer order. *)
Lemma run_odometer {A : Type} (sl : list (list A)) :
  Forall (fun s => s <> []) sl -> run sl (repeat 0 (length sl)) (odometer sl).
Proof.
  induction sl as [|s sl IH]; intros Hne.
  - simpl. now apply run_last.
  - inversion Hne as [|? ? Hs Hsl]; subst. specialize (IH Hsl).
    simpl.
    assert (Hgen : forall s2 s1, s = s1 ++ s2 -> s2 <> [] ->
              run (s :: sl) (length s1 :: repeat 0 (length sl))
                  (flat_map (fun v => map (cons v) (odometer sl)) s2)).
    { induction s2 as [|a s2 IH2]; intros s1 Es Hs2; [congruence|].
      assert (Hnth : nth_error s (length s1) = Some a)
        by (rewrite Es; apply nth_error_middle).
      assert (Hlen : length s = length s1 + S (length s2))
        by (rewrite Es, length_app; reflexivity).
      destruct (run_block s sl _ _ IH (length s1) a Hnth) as [B1 B2].
      simpl. destruct s2 as [|b s2].
      - simpl. rewrite app_nil_r. apply B2. simpl in Hlen. lia.
      - apply B1; [simpl in Hlen; lia|].
        specialize (IH2 (s1 ++ [a])).
        rewrite length_app in IH2. simpl in IH2.
        replace (length s1 + 1) with (S (length s1)) in IH2 by lia.
        apply IH2; [|discriminate].
        rewrite <- app_assoc. exact Es. }
    apply (Hgen s []); auto.
Qed.

Lemma length_odometer {A : Type} (sl : list (list A)) :
  length (odometer sl) = count_combinations sl.
Proof.
  induction sl as [|s sl IH]; simpl; [reflexivity|].
  induction s as [|a s IHs]; simpl; [reflexivity|].
  now rewrite length_app, length_map, IHs, IH.
Qed.

Lemma In_odometer_length {A : Type} (sl : list (list A)) :
  forall r, In r (odometer sl) -> length r = length sl.
Proof.
  induction sl as [|s sl IH]; simpl; intros r Hin.
  - destruct Hin as [<-|[]]. reflexivity.
  - apply in_flat_map in Hin. destruct Hin as [a [_ Hin]].
    apply in_map_iff in Hin. destruct Hin as [r' [<- Hin]].
    simpl. now rewrite (IH r' Hin).
Qed.

Lemma In_odometer_Forall2 {A : Type} (sl : list (list A)) :
  forall r, In r (odometer sl) -> Forall2 (fun a s => In a s) r sl.
Proof.
  induction sl as [|s sl IH]; simpl; intros r Hin.
  - destruct Hin as [<-|[]]. constructor.
  - apply in_flat_map in Hin. destruct Hin as [a [Ha Hin]].
    apply in_map_iff in Hin. destruct Hin as [r' [<- Hin]].
    constructor; auto.
Qed.

(** One turn of the loop of [generateCartesianProductForOptions]. *)
Lemma cartesian_loop_turn (s0 : list optionPlaceholder) (sl : list (list optionPlaceholder))
      (k : nat) (t : list nat) (a : optionPlaceholder) (r : list optionPlaceholder)
      (fuel : nat) (output : list simpleProductOption) :
  nth_error s0 k = Some a -> sel sl t = Some r -> length t = length sl ->
  cartesian_loop (S fuel) (s0 :: sl) (k :: t) output =
  cartesian_loop fuel (s0 :: sl) (next_spec (s0 :: sl) (k :: t)) (output ++ [assemble (a :: r)]).
Proof.
  intros Hnth Hsel Hlen.
  cbn [cartesian_loop nth_error].
  assert (Hk : (k <? length s0)%nat = true).
  { apply Nat.ltb_lt. apply nth_error_Some. congruence. }
  rewrite Hk, pick_is_sel.
  cbn [skipn sel]. rewrite Hnth, Hsel.
  rewrite next_is_next_spec; [reflexivity | discriminate | simpl; now rewrite Hlen].
Qed.

Lemma cartesian_loop_exit (s0 : list optionPlaceholder) (sl : list (list optionPlaceholder))
      (k : nat) (t : list nat) (fuel : nat) (output : list simpleProductOption) :
  ~ k < length s0 ->
  cartesian_loop (S fuel) (s0 :: sl) (k :: t) output = Returned output.
Proof.
  intros Hk. cbn [cartesian_loop nth_error].
  apply Nat.ltb_nlt in Hk. now rewrite Hk.
Qed.

(** While the first index stays at [k], the loop emits the block of the
    rows selected by the other indices. *)
Lemma cartesian_loop_block (s0 : list optionPlaceholder) (sl : list (list optionPlaceholder))
      (t : list nat) (L : list (list optionPlaceholder)) :
  run sl t L ->
  forall k a fuel output, nth_error s0 k = Some a ->
    cartesian_loop (length L + fuel) (s0 :: sl) (k :: t) output =
    cartesian_loop fuel (s0 :: sl) (S k :: repeat 0 (length sl))
                   (output ++ map assemble (map (cons a) L)).
Proof.
  induction 1 as [t r Hlen Hsel Hcarry | t r t' L Hlen Hsel Hstep Hrun IH];
    intros k a fuel output Hnth.
  - cbn [length Nat.add].
    rewrite (cartesian_loop_turn s0 sl k t a r fuel output Hnth Hsel Hlen).
    cbn [next_spec]. destruct (step sl t) as [c t''] eqn:E. simpl in Hcarry. subst c.
    now rewrite (step_carry sl t t'' Hlen E).
  - cbn [length Nat.add].
    rewrite (cartesian_loop_turn s0 sl k t a r _ output Hnth Hsel Hlen).
    cbn [next_spec]. rewrite Hstep.
    rewrite (IH k a fuel _ Hnth). cbn [map]. now rewrite <- app_assoc.
Qed.

Lemma cartesian_loop_all (s0 : list optionPlaceholder) (sl : list (list optionPlaceholder)) :
  Forall (fun s => s <> []) sl ->
  forall s2 s1 fuel output, s0 = s1 ++ s2 ->
    cartesian_loop (length (flat_map (fun a => map (cons a) (odometer sl)) s2) + S fuel)
                   (s0 :: sl) (length s1 :: repeat 0 (length sl)) output =
    Returned (output ++ map assemble (flat_map (fun a => map (cons a) (odometer sl)) s2)).
Proof.
  intros Hne. pose proof (run_odometer sl Hne) as Hrun.
  induction s2 as [|a s2 IH]; intros s1 fuel output Es.
  - cbn [flat_map length Nat.add map]. rewrite app_nil_r.
    apply cartesian_loop_exit. rewrite Es, app_nil_r. lia.
  - cbn [flat_map]. rewrite length_app, length_map, <- Nat.add_assoc.
    assert (Hnth : nth_error s0 (length s1) = Some a)
      by (rewrite Es; apply nth_error_middle).
    rewrite (cartesian_loop_block s0 sl _ _ Hrun (length s1) a _ output Hnth).
    specialize (IH (s1 ++ [a]) fuel (output ++ map assemble (map (cons a) (odometer sl)))).
    rewrite length_app in IH. cbn [length] in IH.
    replace (length s1 + 1) with (S (length s1)) in IH by lia.
    rewrite IH by (rewrite <- app_assoc; exact Es).
    now rewrite map_app, app_assoc.
Qed.

(** The loop over a non-empty [optionData] whose lists after the first
    are non-empty returns, within its budget, the rows of the
    specification's odometer order. *)
Lemma cartesian_loop_odometer (s0 : list optionPlaceholder) (sl : list (list optionPlaceholder)) :
  Forall (fun s => s <> []) sl ->
  cartesian_loop (S (count_combinations (s0 :: sl))) (s0 :: sl)
                 (repeat 0 (length (s0 :: sl))) [] =
  Returned (map assemble (odometer (s0 :: sl))).
Proof.
  intros Hne.
  rewrite <- length_odometer. cbn [odometer length repeat].
  replace (S (length (flat_map (fun v => map (cons v) (odometer sl)) s0)))
    with (length (flat_map (fun v => map (cons v) (odometer sl)) s0) + 1) by lia.
  exact (cartesian_loop_all s0 sl Hne s0 [] 0 [] eq_refl).
Qed.

(** Zipping every option with the value selected for it. *)
Definition zip_placeholders (options : list ProductOption) (values : list ProductOptionValue)
  : list optionPlaceholder :=
  map (fun ov => placeholder (fst ov) (snd ov)) (combine options values).

Lemma flat_map_map_in {A B C : Type} (f : B -> list C) (g : A -> B) (l : list A) :
  flat_map f (map g l) = flat_map (fun a => f (g a)) l.
Proof.
  induction l as [|a l IH]; simpl; [reflexivity | now rewrite IH].
Qed.

Lemma map_flat_map_out {A B C : Type} (f : B -> C) (g : A -> list B) (l : list A) :
  map f (flat_map g l) = flat_map (fun a => map f (g a)) l.
Proof.
  induction l as [|a l IH]; simpl; [reflexivity | now rewrite map_app, IH].
Qed.

Lemma odometer_placeholders (options : list ProductOption) :
  odometer (placeholders options) =
  map (zip_placeholders options) (odometer (map po_Values options)).
Proof.
  induction options as [|o options IH]; [reflexivity|].
  cbn [placeholders map odometer]. fold (placeholders options).
  rewrite flat_map_map_in, map_flat_map_out.
  apply flat_map_ext. intros v.
  rewrite IH, !map_map. reflexivity.
Qed.

Lemma assemble_zip (options : list ProductOption) (values : list ProductOptionValue) :
  length values = length options ->
  assemble (zip_placeholders options values) = combination options values.
Proof.
  intros Hlen. unfold assemble, zip_placeholders, combination.
  rewrite !map_map. cbn [placeholder ph_ID ph_Summary ph_Value ph_OriginalValue].
  assert (Hsnd : forall (B : Type) (f : ProductOptionValue -> B),
             map (fun ov : ProductOption * ProductOptionValue => f (snd ov))
                 (combine options values) = map f values).
  { intros B f. rewrite <- (map_map snd f). f_equal.
    revert values Hlen. induction options as [|o os IH]; intros [|v vs] Hl;
      simpl in *; try discriminate; auto.
    f_equal. apply IH. now injection Hl. }
  rewrite (Hsnd _ pov_ID), (Hsnd _ (fun v => ToLower (pov_Value v))), (Hsnd _ (fun v => v)).
  now rewrite map_id.
Qed.

(** What the enumerator returns for a non-empty list of options whose
    options after the first all have a value. *)
Lemma generateCartesianProductForOptions_spec (o : ProductOption) (rest : list ProductOption) :
  Forall (fun o' => po_Values o' <> []) rest ->
  generateCartesianProductForOptions (o :: rest) =
  Returned (map (combination (o :: rest)) (odometer (map po_Values (o :: rest)))).
Proof.
  intros Hne. unfold generateCartesianProductForOptions.
  cbn [placeholders map]. fold (placeholders rest).
  rewrite cartesian_loop_odometer.
  - f_equal.
    change (map (placeholder o) (po_Values o) :: placeholders rest)
      with (placeholders (o :: rest)).
    rewrite odometer_placeholders, map_map.
    apply map_ext_in. intros vs Hin.
    apply assemble_zip. apply In_odometer_length in Hin.
    rewrite Hin. cbn [length]. now rewrite length_map.
  - unfold placeholders. apply Forall_map.
    eapply Forall_impl; [|exact Hne].
    intros o' Ho' Hm. apply Ho'. destruct (po_Values o'); [reflexivity | discriminate].
Qed.

Lemma sel_zeros_none {A : Type} (sl : list (list A)) :
  Exists (fun s => s = []) sl -> sel sl (repeat 0 (length sl)) = None.
Proof.
  induction 1 as [s sl Hs | s sl _ IH]; simpl.
  - now rewrite Hs.
  - rewrite IH. now destruct s.
Qed.

Lemma empty_or_not {A : Type} (sl : list (list A)) :
  Forall (fun s => s <> []) sl \/ Exists (fun s => s = []) sl.
Proof.
  induction sl as [|s sl [IH|IH]].
  - left. constructor.
  - destruct s as [|a s]; [right; now constructor | left; constructor; [discriminate | exact IH]].
  - right. now constructor 2.
Qed.

(** An option without values in the first place: the loop test fails
    at once and the enumerator returns no combination, which is also
    what the odometer order of an empty first list is. *)
Lemma generateCartesianProductForOptions_first_empty (o : ProductOption)
      (rest : list ProductOption) :
  po_Values o = [] ->
  generateCartesianProductForOptions (o :: rest) =
  Returned (map (combination (o :: rest)) (odometer (map po_Values (o :: rest)))).
Proof.
  intros H. unfold generateCartesianProductForOptions.
  cbn [placeholders map odometer]. rewrite H. reflexivity.
Qed.

(** An option without values in a later place, after a first option
    that has values: the first turn of the loop indexes the empty list
    of its values, and the enumerator panics. *)
Lemma generateCartesianProductForOptions_panics (o : ProductOption)
      (rest : list ProductOption) :
  po_Values o <> [] ->
  Exists (fun o' => po_Values o' = []) rest ->
  generateCartesianProductForOptions (o :: rest) = Panicked.
Proof.
  intros Hfirst Hex. unfold generateCartesianProductForOptions.
  cbn [placeholders map]. fold (placeholders rest).
  destruct (po_Values o) as [|v vs]; [congruence|].
  cbn [cartesian_loop length repeat nth_error map Nat.ltb Nat.leb].
  rewrite pick_is_sel. cbn [skipn sel nth_error].
  rewrite sel_zeros_none; [reflexivity|].
  unfold placeholders. apply Exists_exists in Hex. destruct Hex as (o' & Hin & Hnil).
  apply Exists_exists. exists (map (placeholder o') (po_Values o')).
  split; [now apply in_map with (f := fun x => map (placeholder x) (po_Values x)) |].
  now rewrite Hnil.
Qed.

(** The enumerator always ends within the budget of iterations its
    model is given: it returns or it panics, whatever the options. *)
Lemma generateCartesianProductForOptions_terminates (inputOptions : list ProductOption) :
  generateCartesianProductForOptions inputOptions <> OutOfFuel.
Proof.
  destruct inputOptions as [|o rest]; [discriminate|].
  destruct (empty_or_not (map po_Values rest)) as [Hne|Hex].
  - rewrite generateCartesianProductForOptions_spec; [discriminate|].
    exact (proj1 (Forall_map po_Values (fun s => s <> []) rest) Hne).
  - destruct (po_Values o) as [|v vs] eqn:E.
    + now rewrite generateCartesianProductForOptions_first_empty.
    + rewrite generateCartesianProductForOptions_panics; [discriminate | congruence |].
      exact (proj1 (Exists_map po_Values (fun s => s = []) rest) Hex).
Qed.

(** Every selection of one value per list is a row of [odometer], and
    every row is such a selection. *)
Lemma odometer_complete {A : Type} (sl : list (list A)) (r : list A) :
  Forall2 (fun a s => In a s) r sl <-> In r (odometer sl).
Proof.
  split; [|apply In_odometer_Forall2].
  induction 1 as [|a s r sl Ha _ IH]; simpl; [now left|].
  apply in_flat_map. exists a. split; [exact Ha|]. now apply in_map.
Qed.

(** C4. For every non-empty list of options that each have at least one
    value, the enumerator returns one combination per selection of one
    value per option, in the odometer order of the specification (the
    last option's value cycling fastest, the first option's slowest):
    the values and the identifiers of the combinations returned are
    those of the selections, in this order. *)
Theorem generateCartesianProductForOptions_odometer_order (inputOptions : list ProductOption) :
  inputOptions <> [] ->
  Forall (fun o => po_Values o <> []) inputOptions ->
  exists combinations,
    generateCartesianProductForOptions inputOptions = Returned combinations /\
    map OriginalValues combinations = odometer (map po_Values inputOptions) /\
    map IDs combinations = map (map pov_ID) (odometer (map po_Values inputOptions)).
Proof.
  intros Hne Hall. destruct inputOptions as [|o rest]; [congruence|].
  inversion Hall as [|? ? _ Hrest]; subst.
  eexists. split; [apply generateCartesianProductForOptions_spec; exact Hrest|].
  rewrite !map_map. cbn [combination OriginalValues IDs].
  split; [apply map_id | reflexivity].
Qed.

(** ** Calls made inside the transaction *)

(** The five creation steps of the commit: root, option, value, variant
    and bridge creation. *)
Definition creation_call (c : Call) : bool :=
  match c with
  | CallCreateProductRoot _
  | CallCreateProductOption _
  | CallCreateProductOptionValue _
  | CallCreateProduct _
  | CallCreateMultipleProductVariantBridgesForProductID _ _ => true
  | _ => false
  end.

(** An event of the creation steps; a product it creates carries the
    quantity per package [q]. *)
Definition creation_event (q : uint32) (ev : Event) : Prop :=
  creation_call (fst ev) = true /\
  forall p, fst ev = CallCreateProduct p -> p_QuantityPerPackage p = q.

(** What is left untouched by whatever runs inside the transaction. *)
Definition frame (w w' : World) : Prop :=
  committed w' = committed w /\ faults w' = faults w /\ clock w' = clock w.

(** [ok_run q dp db w w']: from [w] to [w'] only creation steps ran, all
    of them succeeded, and they added [dp] product rows, each with the
    quantity per package [q], and [db] bridge rows to the working copy
    of the transaction. *)
Definition ok_run (q : uint32) (dp db : nat) (w w' : World) : Prop :=
  frame w w' /\
  (exists evs, trace w' = trace w ++ evs /\
               Forall (fun ev => snd ev = None /\ creation_event q ev) evs) /\
  (forall t, tx w = Some t ->
     exists t' rows,
       tx w' = Some t' /\
       products t' = products t ++ rows /\ length rows = dp /\
       Forall (fun row => p_QuantityPerPackage row = q) rows /\
       length (product_variant_bridge t') = length (product_variant_bridge t) + db).

(** [err_run q e w w']: from [w] to [w'] only creation steps ran, and
    the last of them, alone, failed, with [e]. *)
Definition err_run (q : uint32) (e : error) (w w' : World) : Prop :=
  frame w w' /\
  exists oks c, trace w' = trace w ++ oks ++ [(c, Some e)] /\
                Forall (fun ev => snd ev = None /\ creation_event q ev) oks /\
                creation_event q (c, Some e).

Lemma frame_refl (w : World) : frame w w.
Proof. now repeat split. Qed.

Lemma frame_trans (w1 w2 w3 : World) : frame w1 w2 -> frame w2 w3 -> frame w1 w3.
Proof.
  intros (A1 & B1 & C1) (A2 & B2 & C2). repeat split; congruence.
Qed.

Lemma ok_run_refl (q : uint32) (w : World) : ok_run q 0 0 w w.
Proof.
  split; [apply frame_refl|]. split.
  - exists []. now rewrite app_nil_r.
  - intros t Ht. exists t, []. rewrite app_nil_r, Nat.add_0_r. auto.
Qed.

Lemma ok_run_trans (q : uint32) (dp1 db1 dp2 db2 : nat) (w1 w2 w3 : World) :
  ok_run q dp1 db1 w1 w2 -> ok_run q dp2 db2 w2 w3 ->
  ok_run q (dp1 + dp2) (db1 + db2) w1 w3.
Proof.
  intros (F1 & (evs1 & T1 & E1) & X1) (F2 & (evs2 & T2 & E2) & X2).
  split; [eapply frame_trans; eauto|]. split.
  - exists (evs1 ++ evs2). rewrite T2, T1, app_assoc. split; [reflexivity|].
    apply Forall_app. now split.
  - intros t Ht. destruct (X1 t Ht) as (t' & rows1 & Ht' & P1 & L1 & Q1 & B1).
    destruct (X2 t' Ht') as (t'' & rows2 & Ht'' & P2 & L2 & Q2 & B2).
    exists t'', (rows1 ++ rows2). repeat split.
    + exact Ht''.
    + now rewrite P2, P1, app_assoc.
    + rewrite length_app. lia.
    + apply Forall_app. now split.
    + lia.
Qed.

Lemma ok_err_run (q : uint32) (dp db : nat) (e : error) (w1 w2 w3 : World) :
  ok_run q dp db w1 w2 -> err_run q e w2 w3 -> err_run q e w1 w3.
Proof.
  intros (F1 & (evs1 & T1 & E1) & _) (F2 & oks & c & T2 & E2 & C2).
  split; [eapply frame_trans; eauto|].
  exists (evs1 ++ oks), c. rewrite T2, T1, !app_assoc. split; [reflexivity|].
  split; [apply Forall_app; now split | exact C2].
Qed.

(** What a method called on the transaction handle does to the world. *)
Lemma store_call_tx {A : Type} (c : Call) (stmt : Statement A) (w : World)
      (r : result A) (w' : World) :
  store_call QTx c stmt w = (r, w') ->
  frame w w' /\ trace w' = trace w ++ [(c, error_of r)] /\
  ((exists e, r = Err e /\ tx w' = tx w /\
              (faults w (length (trace w)) = Some e \/ tx w = None)) \/
   (exists t0 s t, faults w (length (trace w)) = None /\ tx w = Some t0 /\
                   stmt (clock w) (serial w) t0 = (r, s, t) /\
                   tx w' = Some t /\ serial w' = s)).
Proof.
  unfold store_call. intros H.
  destruct (faults w (length (trace w))) as [e|] eqn:Ef.
  - inversion H; subst; clear H. split; [now repeat split|]. split; [reflexivity|].
    left. exists e. auto.
  - destruct (tx w) as [t0|] eqn:Et.
    + destruct (stmt (clock w) (serial w) t0) as [[r0 s] t] eqn:Es.
      inversion H; subst; clear H. split; [now repeat split|]. split; [reflexivity|].
      right. exists t0, s, t. auto.
    + inversion H; subst; clear H. split; [now repeat split|]. split; [reflexivity|].
      left. exists ErrTxDone. auto.
Qed.

(** A creation method whose statement inserts [dp] product rows and
    [db] bridge rows either fails alone or succeeds as an [ok_run]. *)
Lemma store_call_creation {A : Type} (q : uint32) (dp db : nat) (c : Call)
      (stmt : Statement A) (w : World) (r : result A) (w' : World) :
  creation_event q (c, None) ->
  (forall now s t, exists a s' t' rows,
      stmt now s t = (Ok a, s', t') /\
      products t' = products t ++ rows /\ length rows = dp /\
      Forall (fun row => p_QuantityPerPackage row = q) rows /\
      length (product_variant_bridge t') = length (product_variant_bridge t) + db) ->
  store_call QTx c stmt w = (r, w') ->
  match r with
  | Ok _ => ok_run q dp db w w'
  | Err e => err_run q e w w'
  end.
Proof.
  intros Hc Hstmt Hcall.
  destruct (store_call_tx c stmt w r w' Hcall) as (Hf & Ht & Hcase).
  destruct Hcase as [(e & -> & Htx & _) | (t0 & s & t & Hnf & Htx & Hs & Htx' & _)].
  - split; [exact Hf|]. exists [], c. split; [exact Ht|]. split; [constructor | exact Hc].
  - destruct (Hstmt (clock w) (serial w) t0) as (a & s' & t' & rows & Es & P & L & Q & B).
    rewrite Es in Hs. inversion Hs; subst; clear Hs.
    split; [exact Hf|]. split.
    + exists [(c, None)]. split; [exact Ht|]. constructor; [|constructor]. now split.
    + intros t1 Ht1. rewrite Htx in Ht1. inversion Ht1; subst.
      exists t, rows. auto.
Qed.

Lemma CreateProductRoot_run (q : uint32) (r : ProductRoot) (w : World)
      (res : result (uint64 * Time)) (w' : World) :
  CreateProductRoot QTx r w = (res, w') ->
  match res with
  | Ok _ => ok_run q 0 0 w w'
  | Err e => err_run q e w w'
  end.
Proof.
  apply store_call_creation.
  - split; [reflexivity | discriminate].
  - intros now s t. do 3 eexists. exists []. split; [reflexivity|].
    cbn. rewrite app_nil_r, Nat.add_0_r. auto.
Qed.

Lemma CreateProductOption_run (q : uint32) (o : ProductOption) (w : World)
      (res : result (uint64 * Time)) (w' : World) :
  CreateProductOption QTx o w = (res, w') ->
  match res with
  | Ok _ => ok_run q 0 0 w w'
  | Err e => err_run q e w w'
  end.
Proof.
  apply store_call_creation.
  - split; [reflexivity | discriminate].
  - intros now s t. do 3 eexists. exists []. split; [reflexivity|].
    cbn. rewrite app_nil_r, Nat.add_0_r. auto.
Qed.

Lemma CreateProductOptionValue_run (q : uint32) (v : ProductOptionValue) (w : World)
      (res : result (uint64 * Time)) (w' : World) :
  CreateProductOptionValue QTx v w = (res, w') ->
  match res with
  | Ok _ => ok_run q 0 0 w w'
  | Err e => err_run q e w w'
  end.
Proof.
  apply store_call_creation.
  - split; [reflexivity | discriminate].
  - intros now s t. do 3 eexists. exists []. split; [reflexivity|].
    cbn. rewrite app_nil_r, Nat.add_0_r. auto.
Qed.

Lemma CreateProduct_run (p : Product) (w : World)
      (res : result (uint64 * Time * Time)) (w' : World) :
  CreateProduct QTx p w = (res, w') ->
  match res with
  | Ok _ => ok_run (p_QuantityPerPackage p) 1 0 w w'
  | Err e => err_run (p_QuantityPerPackage p) e w w'
  end.
Proof.
  apply store_call_creation.
  - split; [reflexivity|]. intros p' Hp'. cbn in Hp'. now inversion Hp'.
  - intros now s t. do 3 eexists. eexists [_]. split; [reflexivity|].
    cbn. rewrite Nat.add_0_r. repeat split. constructor; [reflexivity | constructor].
Qed.

Lemma append_assoc (a b c : string) : (a +++ b) +++ c = a +++ b +++ c.
Proof. induction a as [|ch a IH]; cbn; [reflexivity | now rewrite IH]. Qed.

Lemma Join_snoc (l : list string) (x sep : string) :
  l <> [] -> strings.Join (l ++ [x]) sep = strings.Join l sep +++ sep +++ x.
Proof.
  induction l as [|e l IH]; [congruence|]. intros _.
  destruct l as [|e' l]; [reflexivity|].
  change (strings.Join ((e :: e' :: l) ++ [x]) sep)
    with (e +++ sep +++ strings.Join ((e' :: l) ++ [x]) sep).
  rewrite IH by discriminate.
  change (strings.Join (e :: e' :: l) sep) with (e +++ sep +++ strings.Join (e' :: l) sep).
  now rewrite !append_assoc.
Qed.

(** The pairs of the statement, as the loop writes them. *)
Definition pairs (k : nat) : string :=
  strings.Join (map (fun ix => "($1, $" +++ decimal (ix + 2) +++ ")") (seq 0 k))
               ("," +++ newline +++ "                ").

Lemma valueStringLoop_pairs (n : nat) (optionValueIDs : list uint64) :
  forall ix valueString values,
    n = ix + length optionValueIDs ->
    (ix = 0 -> valueString = "") ->
    (ix <> 0 -> valueString = match optionValueIDs with
                              | [] => pairs ix
                              | _ :: _ => pairs ix +++ ","
                              end) ->
    valueStringLoop n ix optionValueIDs valueString values =
    (pairs n, values ++ optionValueIDs).
Proof.
  induction optionValueIDs as [|id rest IH]; intros ix valueString values Hn H0 Hix.
  - cbn [valueStringLoop]. rewrite app_nil_r. cbn [length] in Hn. rewrite Nat.add_0_r in Hn.
    subst n. destruct ix as [|ix]; [now rewrite H0 | now rewrite Hix].
  - cbn [valueStringLoop]. cbn [length] in Hn.
    rewrite IH; [now rewrite <- app_assoc | lia | discriminate |].
    intros _.
    assert (Hthis : (if Nat.eqb ix 0
                     then "($1, $" +++ decimal (ix + 2) +++ ")"
                     else valueString +++ newline +++
                          "                ($1, $" +++ decimal (ix + 2) +++ ")") =
                    pairs (S ix)).
    { destruct ix as [|ix]; [reflexivity|]. cbn [Nat.eqb].
      rewrite Hix by discriminate. unfold pairs at 2. rewrite seq_S, map_app.
      cbn [map Nat.add]. rewrite Join_snoc by discriminate.
      fold (pairs (S ix)). rewrite !append_assoc. reflexivity. }
    rewrite Hthis. destruct rest as [|id' rest].
    + replace (Nat.eqb (n - 1) ix) with true; [reflexivity|].
      symmetry. apply Nat.eqb_eq. cbn [length] in Hn. lia.
    + replace (Nat.eqb (n - 1) ix) with false; [reflexivity|].
      symmetry. apply Nat.eqb_neq. cbn [length] in Hn. lia.
Qed.

(** The text the builder returns is the statement whose [VALUES] list
    is [multiProductVariantBridgeCreationValues], and its arguments are
    the product's id followed by the ids of the option values. *)
Lemma buildMultiProductVariantBridgeCreationQuery_text
      (productID : uint64) (optionValueIDs : list uint64) :
  buildMultiProductVariantBridgeCreationQuery productID optionValueIDs =
  (print_insert (multiProductVariantBridgeCreationValues optionValueIDs),
   productID :: optionValueIDs).
Proof.
  unfold buildMultiProductVariantBridgeCreationQuery.
  rewrite (valueStringLoop_pairs (length optionValueIDs) optionValueIDs 0 "" [productID]);
    [|reflexivity | reflexivity | congruence].
  cbn [app]. f_equal.
  unfold print_insert, multiProductVariantBridgeCreationValues, print_row, pairs.
  cbn [map strings.Join]. rewrite map_map. cbn [print_expr map strings.Join].
  rewrite !append_assoc. reflexivity.
Qed.

(** PostgreSQL refuses the statement for every list of option values:
    its single row has as many expressions as there are option values,
    not two, and when there are two they are row constructors. *)
Lemma multiProductVariantBridgeCreationQuery_refused
      (productID : uint64) (optionValueIDs : list uint64)
      (now : Time) (s : table -> N) (t : Tables) :
  multiProductVariantBridgeCreationQuery productID optionValueIDs now s t =
  (Err (ErrOther "the INSERT statement is refused"), s, t).
Proof.
  unfold multiProductVariantBridgeCreationQuery.
  rewrite buildMultiProductVariantBridgeCreationQuery_text.
  destruct optionValueIDs as [|a [|b [|c rest]]]; reflexivity.
Qed.

Lemma CreateMultipleProductVariantBridgesForProductID_refused
      (productID : uint64) (optionValueIDs : list uint64) (w : World)
      (res : result unit) (w' : World) :
  CreateMultipleProductVariantBridgesForProductID QTx productID optionValueIDs w = (res, w') ->
  exists e, res = Err e.
Proof.
  intros H. destruct (store_call_tx _ _ _ _ _ H) as (_ & _ & Hcase).
  destruct Hcase as [(e & -> & _) | (t0 & s & t & _ & _ & Hs & _)]; [now exists e|].
  rewrite multiProductVariantBridgeCreationQuery_refused in Hs.
  inversion Hs; subst. eexists. reflexivity.
Qed.

Lemma CreateMultipleProductVariantBridgesForProductID_run
      (q : uint32) (productID : uint64) (optionValueIDs : list uint64) (w : World)
      (res : result unit) (w' : World) :
  CreateMultipleProductVariantBridgesForProductID QTx productID optionValueIDs w = (res, w') ->
  match res with
  | Ok _ => ok_run q 0 (length optionValueIDs) w w'
  | Err e => err_run q e w w'
  end.
Proof.
  intros H.
  destruct (CreateMultipleProductVariantBridgesForProductID_refused _ _ _ _ _ H) as [e ->].
  destruct (store_call_tx _ _ _ _ _ H) as (F & T & _).
  split; [exact F|].
  exists [], (CallCreateMultipleProductVariantBridgesForProductID productID optionValueIDs).
  split; [exact T|]. split; [constructor|]. split; [reflexivity | discriminate].
Qed.

Lemma createValues_run (q : uint32) (optionID : uint64) (values : list string) :
  forall created w res w',
    createValues optionID values created w = (res, w') ->
    match res with
    | Ok vs => ok_run q 0 0 w w' /\
               exists news, vs = created ++ news /\ map pov_Value news = values
    | Err e => err_run q e w w'
    end.
Proof.
  induction values as [|value rest IH]; intros created w res w' H; cbn [createValues] in H.
  - inversion H; subst. split; [apply ok_run_refl|]. exists []. now rewrite app_nil_r.
  - match type of H with
    | context [CreateProductOptionValue QTx ?v w] =>
        destruct (CreateProductOptionValue QTx v w) as [[[id createdOn]|e] w1] eqn:E1;
        pose proof (CreateProductOptionValue_run q _ _ _ _ E1) as R1; cbn in R1
    end.
    + specialize (IH _ _ _ _ H). destruct res as [vs|e].
      * destruct IH as (R2 & news & -> & Hv). split.
        -- exact (ok_run_trans q 0 0 0 0 _ _ _ R1 R2).
        -- eexists (_ :: news). rewrite <- app_assoc. split; [reflexivity|].
           cbn. now rewrite Hv.
      * exact (ok_err_run q 0 0 e _ _ _ R1 IH).
    + inversion H; subst. exact R1.
Qed.

Lemma createProductOptionAndValuesInDBFromInput_run
      (q : uint32) (i : ProductOptionCreationInput) (productRootID : uint64)
      (w : World) (res : result ProductOption) (w' : World) :
  createProductOptionAndValuesInDBFromInput i productRootID w = (res, w') ->
  match res with
  | Ok o => ok_run q 0 0 w w' /\ po_Name o = oci_Name i /\
            map pov_Value (po_Values o) = oci_Values i
  | Err e => err_run q e w w'
  end.
Proof.
  unfold createProductOptionAndValuesInDBFromInput. intros H.
  match type of H with
  | context [CreateProductOption QTx ?o w] =>
      destruct (CreateProductOption QTx o w) as [[[id createdOn]|e] w1] eqn:E1;
      pose proof (CreateProductOption_run q _ _ _ _ E1) as R1; cbn in R1
  end.
  - destruct (createValues id (oci_Values i) [] w1) as [[vs|e] w2] eqn:E2;
      pose proof (createValues_run q _ _ _ _ _ _ E2) as R2; cbn in R2;
      inversion H; subst; clear H.
    + destruct R2 as (R2 & news & -> & Hv). split.
      * exact (ok_run_trans q 0 0 0 0 _ _ _ R1 R2).
      * split; [reflexivity | exact Hv].
    + exact (ok_err_run q 0 0 e _ _ _ R1 R2).
  - inversion H; subst. exact R1.
Qed.

(** The options created for a payload: one per input option, in input
    order, with its name and with one value per input value, in input
    order. *)
Definition created_from (options : list ProductOptionCreationInput)
           (created : list ProductOption) : Prop :=
  Forall2 (fun i o => po_Name o = oci_Name i /\ map pov_Value (po_Values o) = oci_Values i)
          options created.

Lemma createOptionsLoop_run (q : uint32) (options : list ProductOptionCreationInput) :
  forall productRoot w res w',
    createOptionsLoop options productRoot w = (res, w') ->
    match res with
    | Ok root' =>
        ok_run q 0 0 w w' /\
        r_ID root' = r_ID productRoot /\ r_SKUPrefix root' = r_SKUPrefix productRoot /\
        exists news, r_Options root' = r_Options productRoot ++ news /\
                     created_from options news
    | Err e => err_run q e w w'
    end.
Proof.
  induction options as [|i rest IH]; intros productRoot w res w' H;
    cbn [createOptionsLoop] in H.
  - inversion H; subst. split; [apply ok_run_refl|]. repeat split.
    exists []. rewrite app_nil_r. split; [reflexivity | constructor].
  - destruct (createProductOptionAndValuesInDBFromInput i (r_ID productRoot) w)
      as [[o|e] w1] eqn:E1;
      pose proof (createProductOptionAndValuesInDBFromInput_run q _ _ _ _ _ E1) as R1;
      cbn in R1.
    + destruct R1 as (R1 & Hn & Hv).
      specialize (IH _ _ _ _ H). destruct res as [root'|e].
      * destruct IH as (R2 & Hid & Hsku & news & Hopts & Hnews).
        split; [exact (ok_run_trans q 0 0 0 0 _ _ _ R1 R2)|].
        cbn in Hid, Hsku, Hopts. repeat split; auto.
        exists (o :: news). rewrite Hopts, <- app_assoc. split; [reflexivity|].
        constructor; auto.
      * exact (ok_err_run q 0 0 e _ _ _ R1 IH).
    + inversion H; subst. exact R1.
Qed.

(** The product created for one combination. *)
Definition product_of (skuPrefix : string) (rootID : uint64) (q : uint32)
           (option : simpleProductOption) (p : Product) : Prop :=
  p_SKU p = skuPrefix +++ "_" +++ SKUPostfix option /\
  p_OptionSummary p = OptionSummary option /\
  p_ApplicableOptionValues p = OriginalValues option /\
  p_ProductRootID p = rootID /\
  p_QuantityPerPackage p = q.

Definition bridges_of (productOptionData : list simpleProductOption) : nat :=
  list_sum (map (fun option => length (IDs option)) productOptionData).

Lemma createProductsLoop_run (r : ProductRoot) (np : Product)
      (productOptionData : list simpleProductOption) :
  forall createdProducts w res w',
    createProductsLoop r np productOptionData createdProducts w = (res, w') ->
    match res with
    | Ok ps =>
        ok_run (p_QuantityPerPackage np) (length productOptionData)
               (bridges_of productOptionData) w w' /\
        exists news, ps = createdProducts ++ news /\
                     Forall2 (product_of (r_SKUPrefix r) (r_ID r) (p_QuantityPerPackage np))
                             productOptionData news
    | Err e => err_run (p_QuantityPerPackage np) e w w'
    end.
Proof.
  induction productOptionData as [|option rest IH]; intros created w res w' H;
    cbn [createProductsLoop] in H.
  - inversion H; subst. split; [apply ok_run_refl|].
    exists []. rewrite app_nil_r. split; [reflexivity | constructor].
  - match type of H with
    | context [CreateProduct QTx ?p w] =>
        destruct (CreateProduct QTx p w) as [[[[id createdOn] availableOn]|e] w1] eqn:E1;
        pose proof (CreateProduct_run p _ _ _ E1) as R1; cbn in R1
    end.
    + match type of H with
      | context [CreateMultipleProductVariantBridgesForProductID QTx ?pid ?ids w1] =>
          destruct (CreateMultipleProductVariantBridgesForProductID QTx pid ids w1)
            as [[[]|e] w2] eqn:E2;
          pose proof (CreateMultipleProductVariantBridgesForProductID_run
                        (p_QuantityPerPackage np) _ _ _ _ _ E2) as R2; cbn in R2
      end.
      * specialize (IH _ _ _ _ H). destruct res as [ps|e].
        -- destruct IH as (R3 & news & -> & Hnews). split.
           ++ pose proof (ok_run_trans _ _ _ _ _ _ _ _
                            (ok_run_trans _ _ _ _ _ _ _ _ R1 R2) R3) as R.
              unfold bridges_of. cbn [map list_sum length].
              replace (1 + 0 + length rest) with (S (length rest)) in R by lia.
              replace (0 + length (IDs option) +
                         bridges_of rest)
                with (length (IDs option) + bridges_of rest) in R by lia.
              exact R.
           ++ eexists (_ :: news). rewrite <- app_assoc. split; [reflexivity|].
              constructor; [|exact Hnews]. repeat split.
        -- exact (ok_err_run _ _ _ e _ _ _
                    (ok_run_trans _ _ _ _ _ _ _ _ R1 R2) IH).
      * inversion H; subst. exact (ok_err_run _ _ _ e _ _ _ R1 R2).
    + inversion H; subst. exact R1.
Qed.

(** The statement that inserts the bridge rows being refused, the loop
    succeeds only when it has no combination to go through. *)
Lemma createProductsLoop_created (r : ProductRoot) (np : Product)
      (productOptionData : list simpleProductOption) (createdProducts : list Product)
      (w : World) (ps : list Product) (w' : World) :
  createProductsLoop r np productOptionData createdProducts w = (Ok ps, w') ->
  productOptionData = [] /\ ps = createdProducts.
Proof.
  destruct productOptionData as [|option rest]; cbn [createProductsLoop]; intros H.
  - inversion H; subst. now split.
  - match type of H with
    | context [CreateProduct QTx ?p w] =>
        destruct (CreateProduct QTx p w) as [[[[id createdOn] availableOn]|e] w1];
          [|discriminate]
    end.
    match type of H with
    | context [CreateMultipleProductVariantBridgesForProductID QTx ?pid ?ids w1] =>
        destruct (CreateMultipleProductVariantBridgesForProductID QTx pid ids w1)
          as [res w2] eqn:E2;
        destruct (CreateMultipleProductVariantBridgesForProductID_refused _ _ _ _ _ E2)
          as [e ->]
    end.
    discriminate.
Qed.

(** ** Calls made outside the transaction *)

Lemma store_call_db_read {A : Type} (c : Call) (stmt : Statement A) (w : World)
      (r : result A) (w' : World) :
  (forall now s t, exists r0, stmt now s t = (r0, s, t)) ->
  store_call QDB c stmt w = (r, w') ->
  frame w w' /\ tx w' = tx w /\ trace w' = trace w ++ [(c, error_of r)].
Proof.
  unfold store_call. intros Hread H.
  destruct (faults w (length (trace w))) as [e|].
  - inversion H; subst. now repeat split.
  - destruct (Hread (clock w) (serial w) (committed w)) as [r0 E]. rewrite E in H.
    inversion H; subst. now repeat split.
Qed.

Lemma ProductRootWithSKUPrefixExists_read (skuPrefix : string) (w : World)
      (r : result bool) (w' : World) :
  ProductRootWithSKUPrefixExists QDB skuPrefix w = (r, w') ->
  frame w w' /\ tx w' = tx w /\
  trace w' = trace w ++ [(CallProductRootWithSKUPrefixExists skuPrefix, error_of r)].
Proof.
  apply store_call_db_read. intros now s t. eexists. reflexivity.
Qed.

Lemma db_Begin_spec (w : World) (r : result unit) (w' : World) :
  db_Begin w = (r, w') ->
  frame w w' /\ trace w' = trace w ++ [(CallBegin, error_of r)] /\
  match r with
  | Ok _ => tx w' = Some (committed w)
  | Err _ => tx w' = tx w
  end.
Proof.
  unfold db_Begin. intros H.
  destruct (faults w (length (trace w))); inversion H; subst; now repeat split.
Qed.

Lemma tx_Commit_spec (w : World) (r : result unit) (w' : World) :
  tx_Commit w = (r, w') ->
  faults w' = faults w /\ clock w' = clock w /\
  trace w' = trace w ++ [(CallCommit, error_of r)] /\
  match r with
  | Ok _ => tx w = Some (committed w') /\ tx w' = None
  | Err _ => committed w' = committed w /\ tx w' = None
  end.
Proof.
  unfold tx_Commit. intros H.
  destruct (faults w (length (trace w))).
  - inversion H; subst. now repeat split.
  - destruct (tx w) eqn:Et; inversion H; subst; repeat split; auto.
Qed.

Lemma tx_Rollback_spec (w : World) :
  frame w (tx_Rollback w) /\ tx (tx_Rollback w) = None /\
  trace (tx_Rollback w) = trace w ++ [(CallRollback, None)].
Proof. now repeat split. Qed.

Lemma record_webhooks (whs : list Webhook) :
  forall w,
    let w' := fold_left (fun w0 wh => record_call (GoCallWebhook wh) None w0) whs w in
    frame w w' /\ tx w' = tx w /\
    trace w' = trace w ++ map (fun wh => (GoCallWebhook wh, None)) whs.
Proof.
  induction whs as [|wh whs IH]; intros w; cbn.
  - rewrite app_nil_r. now repeat split.
  - destruct (IH (record_call (GoCallWebhook wh) None w)) as ((A & B & C) & D & E).
    cbn in *. rewrite E, <- app_assoc. now repeat split.
Qed.

(** The end of a handler changes no row and no transaction, and issues
    no call of the transaction. *)
Definition after_commit_event (ev : Event) : Prop :=
  (exists eventType, fst ev = CallGetWebhooksByEventType eventType) \/
  (exists wh, ev = (GoCallWebhook wh, None)).

Lemma callWebhooks_spec (eventType : string) (answer : Response) (w : World)
      (resp : Response) (w' : World) :
  callWebhooks eventType answer w = (resp, w') ->
  frame w w' /\ tx w' = tx w /\
  (exists evs, trace w' = trace w ++ evs /\ Forall after_commit_event evs) /\
  (resp = answer \/
   exists e, resp = StatusInternalServerError e "retrieve webhooks from database").
Proof.
  unfold callWebhooks. intros H.
  destruct (GetWebhooksByEventType QDB eventType w) as [[whs|e] w1] eqn:E1.
  - apply store_call_db_read in E1; [|intros; eexists; reflexivity].
    destruct E1 as (F1 & X1 & T1).
    destruct (record_webhooks whs w1) as (F2 & X2 & T2).
    inversion H; subst; clear H.
    split; [eapply frame_trans; eauto|]. split; [congruence|]. split; [|now left].
    eexists. rewrite T2, T1, <- app_assoc. split; [reflexivity|].
    constructor.
    + left. eexists. reflexivity.
    + apply Forall_forall. intros ev Hin. apply in_map_iff in Hin.
      destruct Hin as (wh & <- & _). right. eexists. reflexivity.
  - apply store_call_db_read in E1; [|intros; eexists; reflexivity].
    destruct E1 as (F1 & X1 & T1).
    assert (Hev : exists evs, trace w1 = trace w ++ evs /\ Forall after_commit_event evs).
    { eexists. split; [exact T1|]. constructor; [|constructor].
      left. eexists. reflexivity. }
    destruct (is_ErrNoRows e); inversion H; subst; clear H.
    + repeat split; try apply F1; auto.
    + repeat split; try apply F1; auto. right. eexists. reflexivity.
Qed.

(** ** What a run of the creation handler amounts to *)

Definition checked (productInput : ProductCreationInput) : Event :=
  (CallProductRootWithSKUPrefixExists (in_SKU productInput), None).

(** The variants of the root a successful commit answers with, and the
    number [nb] of bridge rows it inserted. *)
Definition variants (productInput : ProductCreationInput) (q : uint32)
           (root : ProductRoot) (nb : nat) : Prop :=
  match in_Options productInput with
  | [] =>
      r_Options root = [] /\ nb = 0 /\
      exists p, r_Products root = [p] /\ p_SKU p = in_SKU productInput /\
                p_QuantityPerPackage p = q /\ p_ProductRootID p = r_ID root
  | _ :: _ =>
      created_from (in_Options productInput) (r_Options root) /\
      let combinations :=
        map (combination (r_Options root)) (odometer (map po_Values (r_Options root))) in
      Forall2 (product_of (r_SKUPrefix root) (r_ID root) q) combinations (r_Products root) /\
      nb = bridges_of combinations
  end.

(** The calls every run that opens its transaction starts with, and
    the creation of the root, built from the payload as it came. *)
Definition rootOf (productInput : ProductCreationInput) : ProductRoot :=
  createProductRootFromProduct (newProductFromCreationInput productInput).

Definition opening (productInput : ProductCreationInput) (eo : option error) : list Event :=
  [checked productInput; (CallBegin, None); (CallCreateProductRoot (rootOf productInput), eo)].

(** Every way a run of the creation handler can go. *)
Inductive creation_report (req : Request) (w : World) : outcome (Response * World) -> Prop :=
| report_invalid : forall err,
    validateRequestInput req = Err err ->
    creation_report req w (Returned (StatusBadRequest err, w))
| report_bad_sku : forall i err,
    validateRequestInput req = Ok i ->
    restrictedStringIsValid (in_SKU i) = false ->
    creation_report req w (Returned (StatusBadRequest err, w))
| report_exists : forall i err eo w',
    validateRequestInput req = Ok i ->
    frame w w' -> tx w' = tx w ->
    trace w' = trace w ++ [(CallProductRootWithSKUPrefixExists (in_SKU i), eo)] ->
    creation_report req w (Returned (StatusBadRequest err, w'))
| report_no_transaction : forall i e w',
    validateRequestInput req = Ok i ->
    frame w w' -> tx w' = tx w ->
    trace w' = trace w ++ [checked i; (CallBegin, Some e)] ->
    creation_report req w
      (Returned (StatusInternalServerError e "create new database transaction", w'))
| report_no_root : forall i e attempting w',
    validateRequestInput req = Ok i ->
    frame w w' -> tx w' = None ->
    trace w' = trace w ++ opening i (Some e) ++ [(CallRollback, None)] ->
    creation_report req w (Returned (StatusInternalServerError e attempting, w'))
| report_rolled_back : forall i e attempting w' oks c,
    validateRequestInput req = Ok i ->
    frame w w' -> tx w' = None ->
    trace w' = trace w ++ opening i None ++ oks ++ [(c, Some e); (CallRollback, None)] ->
    Forall (fun ev => snd ev = None /\
                      creation_event (atLeastOne (in_QuantityPerPackage i)) ev) oks ->
    creation_event (atLeastOne (in_QuantityPerPackage i)) (c, Some e) ->
    creation_report req w (Returned (StatusInternalServerError e attempting, w'))
| report_commit_failed : forall i e w' oks,
    validateRequestInput req = Ok i ->
    frame w w' -> tx w' = None ->
    trace w' = trace w ++ opening i None ++ oks ++ [(CallCommit, Some e)] ->
    Forall (fun ev => snd ev = None /\
                      creation_event (atLeastOne (in_QuantityPerPackage i)) ev) oks ->
    creation_report req w
      (Returned (StatusInternalServerError e "close out transaction", w'))
| report_committed : forall i root resp w' oks tail rows nb,
    validateRequestInput req = Ok i ->
    faults w' = faults w -> clock w' = clock w -> tx w' = None ->
    trace w' = trace w ++ opening i None ++ oks ++ [(CallCommit, None)] ++ tail ->
    Forall (fun ev => snd ev = None /\
                      creation_event (atLeastOne (in_QuantityPerPackage i)) ev) oks ->
    Forall after_commit_event tail ->
    products (committed w') = products (committed w) ++ rows ->
    Forall (fun row => p_QuantityPerPackage row = atLeastOne (in_QuantityPerPackage i)) rows ->
    length rows = length (r_Products root) ->
    length (product_variant_bridge (committed w')) =
      length (product_variant_bridge (committed w)) + nb ->
    r_SKUPrefix root = in_SKU i ->
    variants i (atLeastOne (in_QuantityPerPackage i)) root nb ->
    (resp = StatusCreated root \/
     exists e, resp = StatusInternalServerError e "retrieve webhooks from database") ->
    (in_Options i <> [] -> r_Products root = []) ->
    creation_report req w (Returned (resp, w'))
| report_panicked : forall i o rest,
    validateRequestInput req = Ok i ->
    in_Options i = o :: rest ->
    oci_Values o <> [] ->
    Exists (fun o' => oci_Values o' = []) rest ->
    creation_report req w Panicked.

(** The run up to the creation of the root, when it succeeds. *)
Definition opened (i : ProductCreationInput) (w w3 : World) : Prop :=
  frame w w3 /\ trace w3 = trace w ++ opening i None /\
  exists t3, tx w3 = Some t3 /\ products t3 = products (committed w) /\
             length (product_variant_bridge t3) = length (product_variant_bridge (committed w)).

Lemma report_of_rollback (req : Request) (w w3 wk : World) (i : ProductCreationInput)
      (e : error) (attempting : string) :
  validateRequestInput req = Ok i ->
  opened i w w3 ->
  err_run (atLeastOne (in_QuantityPerPackage i)) e w3 wk ->
  creation_report req w (Returned (StatusInternalServerError e attempting, tx_Rollback wk)).
Proof.
  intros Hv (F3 & T3 & _) (F4 & oks & c & T4 & Hoks & Hc).
  destruct (tx_Rollback_spec wk) as (F5 & X5 & T5).
  apply report_rolled_back with (i := i) (oks := oks) (c := c); auto.
  - eapply frame_trans; [|exact F5]. eapply frame_trans; eauto.
  - rewrite T5, T4, T3. now rewrite <- !app_assoc.
Qed.

Lemma report_of_commit (req : Request) (w w3 w5 : World) (i : ProductCreationInput)
      (root : ProductRoot) (dp db : nat) :
  validateRequestInput req = Ok i ->
  opened i w w3 ->
  ok_run (atLeastOne (in_QuantityPerPackage i)) dp db w3 w5 ->
  length (r_Products root) = dp ->
  r_SKUPrefix root = in_SKU i ->
  variants i (atLeastOne (in_QuantityPerPackage i)) root db ->
  (in_Options i <> [] -> r_Products root = []) ->
  creation_report req w
    match tx_Commit w5 with
    | (Err err, w6) => Returned (notifyOfInternalIssue err "close out transaction", w6)
    | (Ok _, w6) =>
        Returned (callWebhooks ProductCreatedWebhookEvent (StatusCreated root) w6)
    end.
Proof.
  intros Hv (F3 & T3 & t3 & X3 & P3 & B3) (F4 & (oks & T4 & Hoks) & Hrows) Hdp Hsku Hvar Hnone.
  destruct (Hrows _ X3) as (t' & rows & X5 & P5 & L5 & Q5 & B5).
  assert (F15 : frame w w5) by (eapply frame_trans; eauto).
  destruct (tx_Commit w5) as [[[]|e] w6] eqn:E6;
    destruct (tx_Commit_spec _ _ _ E6) as (A6 & C6 & T6 & H6); cbn in T6.
  - destruct H6 as [Ht6 X6]. rewrite X5 in Ht6. inversion Ht6; subst t'.
    destruct (callWebhooks ProductCreatedWebhookEvent (StatusCreated root) w6)
      as [resp w7] eqn:E7.
    destruct (callWebhooks_spec _ _ _ _ _ E7) as ((A7 & B7 & C7) & X7 & (tail & T7 & Htail) & R7).
    destruct F15 as (A5 & B5' & C5).
    apply report_committed with (i := i) (root := root) (oks := oks) (tail := tail)
                                (rows := rows) (nb := db); auto; try congruence.
    rewrite T7, T6, T4, T3. now rewrite <- !app_assoc.
  - destruct H6 as [A6' X6]. destruct F15 as (A5 & B5' & C5).
    apply report_commit_failed with (i := i) (oks := oks); auto.
    + repeat split; congruence.
    + rewrite T6, T4, T3. now rewrite <- !app_assoc.
Qed.

Lemma created_from_all (options : list ProductOptionCreationInput)
      (created : list ProductOption) :
  created_from options created ->
  Forall (fun o => po_Values o <> []) created \/
  (Exists (fun o => po_Values o = []) created /\
   Exists (fun o => oci_Values o = []) options).
Proof.
  induction 1 as [|i o options created [_ Hv] _ IH]; [left; constructor|].
  destruct (po_Values o) as [|v vs] eqn:E.
  - right. split; constructor; [exact E | now rewrite <- Hv].
  - destruct IH as [IH | [IH1 IH2]].
    + left. constructor; [congruence | exact IH].
    + right. split; now constructor 2.
Qed.

(** Every run of the creation handler is one of the runs of
    [creation_report]; in particular the handler always answers. *)
Lemma creation_report_sound (req : Request) (w : World) :
  creation_report req w (buildProductCreationHandler req w).
Proof.
  unfold buildProductCreationHandler.
  destruct (validateRequestInput req) as [i|err] eqn:Ev; [|now apply report_invalid].
  destruct (restrictedStringIsValid (in_SKU i)) eqn:Esku; cbn [negb];
    [|eapply report_bad_sku; eauto].
  cbv zeta.
  destruct (ProductRootWithSKUPrefixExists QDB (in_SKU i) w) as [[[|]|e0] w1] eqn:E1;
    destruct (ProductRootWithSKUPrefixExists_read _ _ _ _ E1) as (F1 & X1 & T1);
    cbn in T1; try (eapply report_exists; now eauto).
  destruct (db_Begin w1) as [[[]|e] w2] eqn:E2;
    destruct (db_Begin_spec _ _ _ E2) as (F2 & T2 & X2); cbn in T2.
  2:{ eapply report_no_transaction; eauto.
      - eapply frame_trans; eauto.
      - congruence.
      - rewrite T2, T1, <- app_assoc. reflexivity. }
  set (q := atLeastOne (in_QuantityPerPackage i)).
  fold (rootOf i).
  destruct (CreateProductRoot QTx (rootOf i) w2) as [[[id createdOn]|e] w3] eqn:E3;
    pose proof (CreateProductRoot_run q _ _ _ _ E3) as R3;
    destruct (store_call_tx _ _ _ _ _ E3) as (F3 & T3 & _); cbn in R3, T3.
  2:{ destruct (tx_Rollback_spec w3) as (F4 & X4 & T4).
      eapply report_no_root; eauto.
      - eapply frame_trans; [|exact F4]. eapply frame_trans; [|exact F3].
        eapply frame_trans; eauto.
      - rewrite T4, T3, T2, T1. unfold opening, checked. now rewrite <- !app_assoc. }
  assert (Hopen : opened i w w3).
  { split; [eapply frame_trans; [|exact F3]; eapply frame_trans; eauto|].
    split; [rewrite T3, T2, T1; unfold opening, checked; now rewrite <- !app_assoc|].
    destruct R3 as (_ & _ & Hrows).
    destruct (Hrows _ X2) as (t3 & rows & X3 & P3 & L3 & _ & B3).
    destruct rows; [|discriminate]. rewrite app_nil_r in P3. rewrite Nat.add_0_r in B3.
    destruct F1 as (A1 & _ & _). exists t3. rewrite <- A1. split; [exact X3|].
    split; [exact P3 | exact B3]. }
  match goal with
  | |- context [createOptionsLoop (in_Options i) ?r w3] =>
      destruct (createOptionsLoop (in_Options i) r w3) as [[root4|e] w4] eqn:E4;
      pose proof (createOptionsLoop_run q _ _ _ _ _ E4) as R4; cbn in R4
  end.
  2:{ eapply report_of_rollback; eauto. }
  destruct R4 as (R4 & Hid & Hsku & news & Hopts & Hnews). cbn in Hopts.
  destruct (in_Options i) as [|o0 orest] eqn:Eopts.
  - (* no options: the base product *)
    match goal with
    | |- context [CreateProduct QTx ?p w4] =>
        destruct (CreateProduct QTx p w4) as [[[[pid pCreatedOn] pAvailableOn]|e] w5] eqn:E5;
        pose proof (CreateProduct_run p _ _ _ E5) as R5; cbn in R5; fold q in R5
    end.
    + pose proof (ok_run_trans _ _ _ _ _ _ _ _ R4 R5) as R. cbn in R.
      eapply report_of_commit; eauto; [|congruence].
      unfold variants. rewrite Eopts. cbn. repeat split.
      eexists. repeat split.
    + eapply report_of_rollback; eauto. eapply ok_err_run; eauto.
  - (* options: one product per combination *)
    destruct news as [|o orest']; [inversion Hnews|].
    apply Forall2_cons_iff in Hnews as Hparts. destruct Hparts as [[_ Ho] Hrest].
    unfold createProductsInDBFromOptionRows. rewrite Hopts.
    assert (Hcases :
              generateCartesianProductForOptions (o :: orest') =
                Returned (map (combination (o :: orest'))
                              (odometer (map po_Values (o :: orest')))) \/
              (generateCartesianProductForOptions (o :: orest') = Panicked /\
               oci_Values o0 <> [] /\ Exists (fun o' => oci_Values o' = []) orest)).
    { destruct (created_from_all _ _ Hrest) as [Hall | [Hex Hex']].
      - left. now apply generateCartesianProductForOptions_spec.
      - destruct (po_Values o) as [|v vs] eqn:Ev0.
        + left. now apply generateCartesianProductForOptions_first_empty.
        + right. split; [|split; [|exact Hex']].
          * apply generateCartesianProductForOptions_panics; [congruence | exact Hex].
          * rewrite <- Ho. discriminate. }
    destruct Hcases as [Hgen | (Hgen & Hfirst & Hlater)]; rewrite Hgen.
    2:{ eapply report_panicked; eauto. }
    match goal with
    | |- context [createProductsLoop ?r ?np ?data [] w4] =>
        destruct (createProductsLoop r np data [] w4) as [[ps|e] w5] eqn:E5;
        pose proof (createProductsLoop_run r np data _ _ _ _ E5) as R5; cbn in R5;
        fold q in R5
    end.
    + destruct R5 as (R5 & ps' & Hps & Hprods). cbn in Hps. subst ps'.
      pose proof (ok_run_trans _ _ _ _ _ _ _ _ R4 R5) as R. cbn [Nat.add] in R.
      destruct (createProductsLoop_created _ _ _ _ _ _ _ E5) as [_ Hnil].
      eapply report_of_commit; eauto.
      * cbn. symmetry. rewrite <- (Forall2_length Hprods). reflexivity.
      * unfold variants. rewrite Eopts. cbn [r_Options set_r_Products r_SKUPrefix r_ID r_Products].
        rewrite Hopts. repeat split; auto.
    + eapply report_of_rollback; eauto. eapply ok_err_run; eauto.
Qed.

(** ** Counting variants *)

(** The value counts [v1..vn] of a payload, and their product. *)
Definition value_counts (productInput : ProductCreationInput) : list nat :=
  map (fun o => length (oci_Values o)) (in_Options productInput).

Definition product_of_counts (counts : list nat) : nat := fold_right Nat.mul 1 counts.

Lemma count_combinations_created (options : list ProductOptionCreationInput)
      (created : list ProductOption) :
  created_from options created ->
  count_combinations (map po_Values created) =
  product_of_counts (map (fun o => length (oci_Values o)) options).
Proof.
  induction 1 as [|i o options created [_ Hv] _ IH]; [reflexivity|].
  cbn. rewrite IH, <- Hv, length_map. reflexivity.
Qed.

Lemma handler_answer (req : Request) (productInput i : ProductCreationInput) :
  validateRequestInput req = Ok productInput -> validateRequestInput req = Ok i ->
  i = productInput.
Proof. congruence. Qed.

Lemma product_of_counts_nonzero (counts : list nat) :
  Forall (fun v => v <> 0) counts -> product_of_counts counts <> 0.
Proof.
  induction 1 as [|v counts Hv _ IH]; cbn; [discriminate|].
  intros H. apply Nat.eq_mul_0 in H. destruct H; contradiction.
Qed.

(** C1, where the code departs from it.  For a payload with [n >= 1]
    options whose value counts are all nonzero, no run of the creation
    handler is answered 201 and no run commits anything: the answer is
    400 or 500 and the committed tables are those of before the run.
    The statement built for the bridge rows of a variant is refused
    whatever the option values, so the first variant is rolled back with
    everything else.  For a payload without options a run answered 201
    has added exactly one product row and no bridge row. *)
Theorem CommitCatalog_commits_no_variant_for_options
        (req : Request) (w : World) (productInput : ProductCreationInput)
        (resp : Response) (w' : World) :
  validateRequestInput req = Ok productInput ->
  buildProductCreationHandler req w = Returned (resp, w') ->
  (in_Options productInput <> [] ->
   Forall (fun v => v <> 0) (value_counts productInput) ->
   ((exists err, resp = StatusBadRequest err) \/
    (exists err attempting, resp = StatusInternalServerError err attempting)) /\
   committed w' = committed w) /\
  (in_Options productInput = [] ->
   forall root, resp = StatusCreated root ->
   length (r_Products root) = 1 /\
   length (products (committed w')) = length (products (committed w)) + 1 /\
   length (product_variant_bridge (committed w')) =
     length (product_variant_bridge (committed w)) + 0).
Proof.
  intros Hbody Hrun.
  pose proof (creation_report_sound req w) as Rep. rewrite Hrun in Rep.
  inversion Rep as [| | | | | | |i root0 resp0 w0 oks tail rows nb Hv Hf Hc Htx Ht Hoks
                                  Htail Hp Hq Hl Hb Hsku Hvar Hresp Hnone|]; subst;
    try (split;
         [ intros _ _; split;
           [ eauto 6
           | first [ reflexivity | match goal with F : frame _ _ |- _ => apply F end ] ]
         | intros _ root Hr; discriminate ]).
  pose proof (handler_answer _ _ _ Hbody Hv) as ->.
  unfold variants in Hvar. cbv zeta in Hvar. unfold value_counts.
  destruct (in_Options productInput) as [|o0 orest] eqn:Eopts.
  - split; [congruence|]. intros _ root ->.
    destruct Hresp as [Hresp | [e Hresp]]; [|discriminate]. inversion Hresp; subst root0.
    destruct Hvar as (_ & -> & p & Hp1 & _). rewrite Hp1 in Hl. cbn in Hl.
    rewrite Hp, Hb, length_app, Hp1, Hl. auto.
  - split; [|discriminate]. intros _ Hcounts. exfalso.
    destruct Hvar as (Hcreated & Hprods & _).
    rewrite Hnone in Hprods by discriminate.
    apply Forall2_length in Hprods.
    rewrite length_map, length_odometer,
      (count_combinations_created _ _ Hcreated) in Hprods.
    exact (product_of_counts_nonzero _ Hcounts Hprods).
Qed.

(** ** Failures inside the transaction *)

Lemma new_events (w w' : World) (evs evs' : list Event) :
  trace w' = trace w ++ evs -> trace w' = trace w ++ evs' -> evs = evs'.
Proof.
  intros H1 H2. rewrite H1 in H2. now apply app_inv_head in H2.
Qed.

Lemma no_new_events (w : World) (evs : list Event) :
  trace w = trace w ++ evs -> evs = [].
Proof.
  intros H. rewrite <- (app_nil_r (trace w)) in H at 1. now apply app_inv_head in H.
Qed.

Lemma failed_not_among_ok (q : uint32) (oks : list Event) (c : Call) (e : error) :
  Forall (fun ev => snd ev = None /\ creation_event q ev) oks -> ~ In (c, Some e) oks.
Proof.
  intros Hoks Hin. rewrite Forall_forall in Hoks.
  destruct (Hoks _ Hin) as [H _]. discriminate.
Qed.

Lemma failed_not_after_commit (tail : list Event) (c : Call) (e : error) :
  creation_call c = true \/ c = CallCommit ->
  Forall after_commit_event tail -> ~ In (c, Some e) tail.
Proof.
  intros Hc Htail Hin. rewrite Forall_forall in Htail.
  destruct (Htail _ Hin) as [[et H] | [wh H]]; cbn in H.
  - subst c. destruct Hc; discriminate.
  - discriminate.
Qed.

(** The status line of an answer. *)
Definition status (resp : Response) : nat :=
  match resp with
  | StatusCreated _ => 201
  | StatusOK _ => 200
  | StatusBadRequest _ => 400
  | StatusNotFound _ _ => 404
  | StatusInternalServerError _ _ => 500
  end.

Ltac decide_event :=
  match goal with
  | Hin : In _ _ |- _ =>
      repeat (apply in_app_or in Hin; destruct Hin as [Hin|Hin]);
      cbn [In opening checked] in Hin;
      repeat (destruct Hin as [Hin|Hin]);
      try contradiction;
      try (inversion Hin; subst; clear Hin);
      try discriminate;
      try (match goal with
           | Hc : creation_call _ = true |- _ => cbn in Hc; discriminate Hc
           | Hc : creation_event _ (CallCommit, _) |- _ =>
               destruct Hc as [Hc _]; cbn in Hc; discriminate Hc
           end)
  end.

(** What a run in which a creation step or the commit fails amounts to:
    the error is answered as an internal error, nothing of the run is
    committed, no transaction is left open; a failed creation step is
    followed by the rollback and by nothing else, a failed commit by
    nothing at all. *)
Lemma failed_step_report
      (req : Request) (w : World) (resp : Response) (w' : World)
      (evs : list Event) (c : Call) (e : error) :
  buildProductCreationHandler req w = Returned (resp, w') ->
  trace w' = trace w ++ evs ->
  creation_call c = true \/ c = CallCommit ->
  In (c, Some e) evs ->
  (exists attempting, resp = StatusInternalServerError e attempting) /\
  (exists before,
      Forall (fun ev => snd ev = None /\ fst ev <> CallCommit) before /\
      ((creation_call c = true /\ evs = before ++ [(c, Some e); (CallRollback, None)]) \/
       (c = CallCommit /\ evs = before ++ [(c, Some e)]))) /\
  tx w' = None /\
  committed w' = committed w.
Proof.
  intros Hrun Hevs Hc Hin.
  pose proof (creation_report_sound req w) as Rep. rewrite Hrun in Rep.
  assert (Hbefore : forall i oks,
             Forall (fun ev => snd ev = None /\
                               creation_event (atLeastOne (in_QuantityPerPackage i)) ev) oks ->
             Forall (fun ev : Event => snd ev = None /\ fst ev <> CallCommit)
                    (opening i None ++ oks)).
  { intros i oks Hoks. apply Forall_app. split; [repeat constructor; discriminate|].
    eapply Forall_impl; [|exact Hoks]. intros ev [Hn [Hcr _]]. split; [exact Hn|].
    intros Heq. rewrite Heq in Hcr. discriminate. }
  inversion Rep as
    [ err Hv
    | i err Hv Hsku
    | i err eo w0 Hv Hf Htx Ht
    | i e0 w0 Hv Hf Htx Ht
    | i e0 attempting w0 Hv Hf Htx Ht
    | i e0 attempting w0 oks c0 Hv Hf Htx Ht Hoks Hc0
    | i e0 w0 oks Hv Hf Htx Ht Hoks
    | i root0 resp0 w0 oks tail rows nb Hv Hf Hcl Htx Ht Hoks Htail
    | ]; subst.
  - apply no_new_events in Hevs. subst. contradiction.
  - apply no_new_events in Hevs. subst. contradiction.
  - rewrite (new_events _ _ _ _ Hevs Ht) in Hin. destruct Hc as [Hc | ->]; decide_event.
  - rewrite (new_events _ _ _ _ Hevs Ht) in Hin. destruct Hc as [Hc | ->]; decide_event.
  - rewrite (new_events _ _ _ _ Hevs Ht) in *. destruct Hc as [Hc | ->]; decide_event.
    split; [eexists; reflexivity|]. split; [|split; [exact Htx | apply Hf]].
    exists [checked i; (CallBegin, None)]. split; [repeat constructor; discriminate|].
    left. split; [reflexivity | reflexivity].
  - rewrite (new_events _ _ _ _ Hevs Ht) in *.
    pose proof (failed_not_among_ok _ oks c e Hoks) as Hno.
    destruct Hc as [Hc | ->]; decide_event.
    split; [eexists; reflexivity|]. split; [|split; [exact Htx | apply Hf]].
    exists (opening i None ++ oks). split; [now apply Hbefore|].
    left. split; [exact Hc | now rewrite <- app_assoc].
  - rewrite (new_events _ _ _ _ Hevs Ht) in *.
    pose proof (failed_not_among_ok _ oks c e Hoks) as Hno.
    destruct Hc as [Hc | ->]; decide_event.
    split; [eexists; reflexivity|]. split; [|split; [exact Htx | apply Hf]].
    exists (opening i None ++ oks). split; [now apply Hbefore|].
    right. split; [reflexivity | now rewrite <- app_assoc].
  - rewrite (new_events _ _ _ _ Hevs Ht) in *.
    pose proof (failed_not_among_ok _ oks c e Hoks) as Hno.
    pose proof (failed_not_after_commit tail c e Hc Htail) as Hno'.
    destruct Hc as [Hc | ->]; decide_event.
Qed.

(** C2. Whenever one of the creation steps of a run of the creation
    handler fails (root, option, value, variant or bridge creation),
    with whatever error, the handler answers with that error as an
    internal error, the failed call is followed by the rollback of the
    transaction and by nothing else, no commit is issued, no transaction
    is left open, and the committed rows are those of before the run. *)
Theorem CommitCatalog_rolls_back_as_a_unit
        (req : Request) (w : World) (resp : Response) (w' : World)
        (evs : list Event) (c : Call) (e : error) :
  buildProductCreationHandler req w = Returned (resp, w') ->
  trace w' = trace w ++ evs ->
  creation_call c = true ->
  In (c, Some e) evs ->
  (exists attempting, resp = StatusInternalServerError e attempting) /\
  (exists before, evs = before ++ [(c, Some e); (CallRollback, None)] /\
                  Forall (fun ev => snd ev = None /\ fst ev <> CallCommit) before) /\
  tx w' = None /\
  committed w' = committed w.
Proof.
  intros Hrun Hevs Hc Hin.
  destruct (failed_step_report req w resp w' evs c e Hrun Hevs (or_introl Hc) Hin)
    as (Hresp & (before & Hb & Hcase) & Htx & Hcommitted).
  repeat split; auto.
  exists before. split; [|exact Hb].
  destruct Hcase as [[_ H] | [-> _]]; [exact H | discriminate].
Qed.

(** C8, as the code has it. A uniqueness violation that the store
    raises after the pre-check passed, at a creation step or at the
    commit, is answered like any other storage failure: as an internal
    error, with status 500, carrying the violation.  Nothing of the run
    is committed and no transaction is left open; after a creation step
    the handler rolls the transaction back. *)
Theorem CommitCatalog_answers_unique_violation_with_500
        (req : Request) (w : World) (resp : Response) (w' : World)
        (evs : list Event) (c : Call) (constraint : string) :
  buildProductCreationHandler req w = Returned (resp, w') ->
  trace w' = trace w ++ evs ->
  creation_call c = true \/ c = CallCommit ->
  In (c, Some (ErrUniqueViolation constraint)) evs ->
  status resp = 500 /\
  (exists attempting,
      resp = StatusInternalServerError (ErrUniqueViolation constraint) attempting) /\
  (creation_call c = true -> In (CallRollback, None) evs) /\
  tx w' = None /\
  committed w' = committed w.
Proof.
  intros Hrun Hevs Hc Hin.
  destruct (failed_step_report req w resp w' evs c _ Hrun Hevs Hc Hin)
    as ((attempting & ->) & (before & Hb & Hcase) & Htx & Hcommitted).
  split; [reflexivity|]. split; [eexists; reflexivity|]. split; [|now split].
  intros Hcc. destruct Hcase as [[_ ->] | [-> _]]; [|discriminate].
  apply in_or_app. right. right. now left.
Qed.

(** ** Names of the variants *)

Lemma odometer_map {A B : Type} (f : A -> B) (vss : list (list A)) :
  odometer (map (map f) vss) = map (map f) (odometer vss).
Proof.
  induction vss as [|vs vss IH]; [reflexivity|].
  cbn [map odometer]. rewrite flat_map_map_in, map_flat_map_out.
  apply flat_map_ext. intros v. now rewrite IH, !map_map.
Qed.

Lemma combine_map_both {A B C D E : Type} (g : A -> C) (h : B -> D) (k : C -> D -> E)
      (l1 : list A) :
  forall l2 : list B,
    map (fun ab => k (g (fst ab)) (h (snd ab))) (combine l1 l2) =
    map (fun cd => k (fst cd) (snd cd)) (combine (map g l1) (map h l2)).
Proof.
  induction l1 as [|a l1 IH]; intros [|b l2]; cbn; try reflexivity.
  now rewrite IH.
Qed.

Lemma Forall2_map_eq {A B C : Type} (f : A -> C) (g : B -> C) (l1 : list A) (l2 : list B) :
  Forall2 (fun a b => f a = g b) l1 l2 -> map f l1 = map g l2.
Proof.
  induction 1 as [|a b l1 l2 H _ IH]; cbn; [reflexivity | now rewrite H, IH].
Qed.

Lemma created_from_names (options : list ProductOptionCreationInput)
      (created : list ProductOption) :
  created_from options created ->
  map po_Name created = map oci_Name options /\
  map (fun o => map pov_Value (po_Values o)) created = map oci_Values options.
Proof.
  induction 1 as [|i o options created [Hn Hv] _ [IH1 IH2]]; cbn; [now split|].
  now rewrite Hn, Hv, IH1, IH2.
Qed.

(** The SKU, the summary and the selected values the specification
    derives for one selection [values] of one value per option. *)
Definition derived (skuPrefix : string) (names : list string) (values : list string)
  : string * string * list string :=
  (skuPrefix +++ "_" +++ strings.Join (map ToLower values) "_",
   strings.Join (map (fun nv => fst nv +++ ": " +++ snd nv) (combine names values)) ", ",
   values).

(** The products a run asks the store to create, in the order of the
    calls, whether the store accepts them or not. *)
Definition asked_products (evs : list Event) : list Product :=
  flat_map (fun ev => match fst ev with CallCreateProduct p => [p] | _ => [] end) evs.

(** [asks w w' ps]: from [w] to [w'] the store was asked to create the
    products [ps], in this order. *)
Definition asks (w w' : World) (ps : list Product) : Prop :=
  exists evs, trace w' = trace w ++ evs /\ asked_products evs = ps.

(** The product the loop of [createProductsInDBFromOptionRows] builds
    for one combination, before the store gives it an id. *)
Definition variant_of (r : ProductRoot) (np : Product) (option : simpleProductOption)
  : Product :=
  set_p_SKU (r_SKUPrefix r +++ "_" +++ SKUPostfix option)
    (set_p_OptionSummary (OptionSummary option)
       (set_p_ApplicableOptionValues (OriginalValues option)
          (set_p_ProductRootID (r_ID r) np))).

(** What the specification's derivation reads of a product. *)
Definition named (p : Product) : string * string * list string :=
  (p_SKU p, p_OptionSummary p, map pov_Value (p_ApplicableOptionValues p)).

Lemma asks_refl (w : World) : asks w w [].
Proof. exists []. now rewrite app_nil_r. Qed.

Lemma asks_trans (w1 w2 w3 : World) (ps1 ps2 : list Product) :
  asks w1 w2 ps1 -> asks w2 w3 ps2 -> asks w1 w3 (ps1 ++ ps2).
Proof.
  intros (evs1 & T1 & <-) (evs2 & T2 & <-). exists (evs1 ++ evs2).
  split; [now rewrite T2, T1, app_assoc | apply flat_map_app].
Qed.

Lemma asks_nothing (w w' : World) (c : Call) (eo : option error) :
  trace w' = trace w ++ [(c, eo)] ->
  (forall p, c <> CallCreateProduct p) ->
  asks w w' [].
Proof.
  intros T Hc. exists [(c, eo)]. split; [exact T|].
  cbn. destruct c; try reflexivity. now destruct (Hc p).
Qed.

Lemma asks_after_commit (w w' : World) (tail : list Event) :
  trace w' = trace w ++ tail -> Forall after_commit_event tail -> asks w w' [].
Proof.
  intros T Htail. exists tail. split; [exact T|]. clear T.
  induction Htail as [|ev tail [[et Hev] | [wh Hev]] _ IH]; [reflexivity | |];
    cbn [asked_products flat_map]; [rewrite Hev | rewrite Hev; cbn [fst]]; exact IH.
Qed.

Lemma store_call_trace {A : Type} (q : Querier) (c : Call) (stmt : Statement A) (w : World)
      (r : result A) (w' : World) :
  store_call q c stmt w = (r, w') -> trace w' = trace w ++ [(c, error_of r)].
Proof.
  unfold store_call. intros H.
  destruct (faults w (length (trace w))); [now inversion H|].
  destruct q.
  - destruct (stmt (clock w) (serial w) (committed w)) as [[r0 s] t]. now inversion H.
  - destruct (tx w) as [t0|]; [|now inversion H].
    destruct (stmt (clock w) (serial w) t0) as [[r0 s] t]. now inversion H.
Qed.

Lemma createValues_asks (optionID : uint64) (values : list string) :
  forall created w res w',
    createValues optionID values created w = (res, w') -> asks w w' [].
Proof.
  induction values as [|value rest IH]; intros created w res w' H; cbn [createValues] in H.
  - inversion H; subst. apply asks_refl.
  - match type of H with
    | context [CreateProductOptionValue QTx ?v w] =>
        destruct (CreateProductOptionValue QTx v w) as [[[id createdOn]|e] w1] eqn:E1;
        apply store_call_trace in E1;
        pose proof (asks_nothing _ _ _ _ E1 ltac:(discriminate)) as A1
    end.
    + exact (asks_trans _ _ _ _ _ A1 (IH _ _ _ _ H)).
    + inversion H; subst. exact A1.
Qed.

Lemma createOptionsLoop_asks (options : list ProductOptionCreationInput) :
  forall productRoot w res w',
    createOptionsLoop options productRoot w = (res, w') -> asks w w' [].
Proof.
  induction options as [|i rest IH]; intros productRoot w res w' H;
    cbn [createOptionsLoop] in H.
  - inversion H; subst. apply asks_refl.
  - assert (Hone : forall r1 w1,
               createProductOptionAndValuesInDBFromInput i (r_ID productRoot) w = (r1, w1) ->
               asks w w1 []).
    { unfold createProductOptionAndValuesInDBFromInput. intros r1 w1 H1.
      match type of H1 with
      | context [CreateProductOption QTx ?o w] =>
          destruct (CreateProductOption QTx o w) as [[[id createdOn]|e] w0] eqn:E0;
          apply store_call_trace in E0;
          pose proof (asks_nothing _ _ _ _ E0 ltac:(discriminate)) as A0
      end.
      - destruct (createValues id (oci_Values i) [] w0) as [[vs|e] w2] eqn:E2;
          apply createValues_asks in E2; inversion H1; subst;
          exact (asks_trans _ _ _ _ _ A0 E2).
      - inversion H1; subst. exact A0. }
    destruct (createProductOptionAndValuesInDBFromInput i (r_ID productRoot) w)
      as [[o|e] w1] eqn:E1; specialize (Hone _ _ eq_refl).
    + exact (asks_trans _ _ _ _ _ Hone (IH _ _ _ _ H)).
    + inversion H; subst. exact Hone.
Qed.

(** The loop asks for the variants of the combinations, one after the
    other, as far as it gets. *)
Lemma createProductsLoop_asks (r : ProductRoot) (np : Product)
      (productOptionData : list simpleProductOption) :
  forall createdProducts w res w',
    createProductsLoop r np productOptionData createdProducts w = (res, w') ->
    exists k, asks w w' (map (variant_of r np) (firstn k productOptionData)).
Proof.
  induction productOptionData as [|option rest IH]; intros created w res w' H;
    cbn [createProductsLoop] in H.
  - inversion H; subst. exists 0. apply asks_refl.
  - fold (variant_of r np option) in H.
    destruct (CreateProduct QTx (variant_of r np option) w)
      as [[[[id createdOn] availableOn]|e] w1] eqn:E1;
      apply store_call_trace in E1.
    + match type of H with
      | context [CreateMultipleProductVariantBridgesForProductID QTx ?pid ?ids w1] =>
          destruct (CreateMultipleProductVariantBridgesForProductID QTx pid ids w1)
            as [[[]|e] w2] eqn:E2;
          apply store_call_trace in E2;
          pose proof (asks_nothing _ _ _ _ E2 ltac:(discriminate)) as A2
      end.
      * destruct (IH _ _ _ _ H) as [k A3]. exists (S k).
        assert (A1 : asks w w1 [variant_of r np option]) by (eexists; split; [exact E1|reflexivity]).
        exact (asks_trans _ _ _ _ _ A1 (asks_trans _ _ _ _ _ A2 A3)).
      * inversion H; subst. exists 1.
        assert (A1 : asks w w1 [variant_of r np option]) by (eexists; split; [exact E1|reflexivity]).
        pose proof (asks_trans _ _ _ _ _ A1 A2) as A. exact A.
    + inversion H; subst. exists 1. eexists. split; [exact E1|reflexivity].
Qed.

(** The names of the combinations of the options created for a
    payload are those the specification derives from the payload. *)
Lemma combination_names (skuPrefix : string) (options : list ProductOptionCreationInput)
      (created : list ProductOption) :
  created_from options created ->
  map (fun c => (skuPrefix +++ "_" +++ SKUPostfix c, OptionSummary c,
                 map pov_Value (OriginalValues c)))
      (map (combination created) (odometer (map po_Values created))) =
  map (derived skuPrefix (map oci_Name options)) (odometer (map oci_Values options)).
Proof.
  intros Hcreated.
  destruct (created_from_names _ _ Hcreated) as [Hnames Hvalues].
  rewrite <- Hnames, <- Hvalues.
  rewrite <- (map_map po_Values (map pov_Value)), odometer_map, !map_map.
  apply map_ext. intros vs.
  unfold derived. cbn [combination SKUPostfix OptionSummary OriginalValues].
  rewrite map_map.
  rewrite (combine_map_both po_Name pov_Value (fun n v => n +++ ": " +++ v)).
  reflexivity.
Qed.

(** Whenever the enumerator returns, it returns the combinations of
    the odometer order. *)
Lemma generateCartesianProductForOptions_returned (inputOptions : list ProductOption)
      (combinations : list simpleProductOption) :
  generateCartesianProductForOptions inputOptions = Returned combinations ->
  combinations =
  map (combination inputOptions) (odometer (map po_Values inputOptions)).
Proof.
  destruct inputOptions as [|o rest]; [discriminate|]. intros H.
  destruct (po_Values o) as [|v vs] eqn:Ev.
  - rewrite generateCartesianProductForOptions_first_empty in H by exact Ev.
    now inversion H.
  - destruct (empty_or_not (map po_Values rest)) as [Hne | Hex].
    + rewrite generateCartesianProductForOptions_spec in H; [now inversion H|].
      exact (proj1 (Forall_map po_Values (fun s => s <> []) rest) Hne).
    + rewrite generateCartesianProductForOptions_panics in H; [discriminate | congruence |].
      exact (proj1 (Exists_map po_Values (fun s => s = []) rest) Hex).
Qed.

Lemma asks_then_nothing (w1 w2 w3 : World) (ps : list Product) :
  asks w1 w2 ps -> asks w2 w3 [] -> asks w1 w3 ps.
Proof.
  intros A1 A2. pose proof (asks_trans _ _ _ _ _ A1 A2) as A.
  now rewrite app_nil_r in A.
Qed.

(** The variants of the first combinations carry the names the
    specification derives from the first selections. *)
Lemma variant_names (i : ProductCreationInput) (root : ProductRoot) (np : Product)
      (k : nat) :
  created_from (in_Options i) (r_Options root) ->
  r_SKUPrefix root = in_SKU i ->
  map named
      (map (variant_of root np)
           (firstn k (map (combination (r_Options root))
                          (odometer (map po_Values (r_Options root)))))) =
  map (derived (in_SKU i) (map oci_Name (in_Options i)))
      (firstn k (odometer (map oci_Values (in_Options i)))).
Proof.
  intros Hcreated Hsku.
  rewrite map_map.
  rewrite <- (firstn_map (fun c => named (variant_of root np c))).
  rewrite <- (firstn_map (derived (in_SKU i) (map oci_Name (in_Options i)))).
  f_equal. rewrite <- (combination_names (in_SKU i) _ _ Hcreated), <- Hsku. reflexivity.
Qed.

(** What a run of the creation handler for a payload with options asks
    the store to create: the variants of the first selections of the
    odometer order, as far as the run gets. *)
Lemma buildProductCreationHandler_asks (req : Request) (w : World)
      (i : ProductCreationInput) (resp : Response) (w' : World) :
  validateRequestInput req = Ok i ->
  in_Options i <> [] ->
  buildProductCreationHandler req w = Returned (resp, w') ->
  exists k ps,
    asks w w' ps /\
    map named ps =
    map (derived (in_SKU i) (map oci_Name (in_Options i)))
        (firstn k (odometer (map oci_Values (in_Options i)))).
Proof.
  intros Hv Hne. unfold buildProductCreationHandler. rewrite Hv.
  assert (Hnil : forall w0, asks w w0 [] ->
             exists k ps,
               asks w w0 ps /\
               map named ps =
               map (derived (in_SKU i) (map oci_Name (in_Options i)))
                   (firstn k (odometer (map oci_Values (in_Options i))))).
  { intros w0 A. exists 0, []. now split. }
  destruct (restrictedStringIsValid (in_SKU i)); cbn [negb];
    [|intros H; inversion H; subst; apply Hnil, asks_refl].
  cbv zeta.
  destruct (ProductRootWithSKUPrefixExists QDB (in_SKU i) w) as [[[|]|e0] w1] eqn:E1;
    apply store_call_trace in E1;
    pose proof (asks_nothing _ _ _ _ E1 ltac:(discriminate)) as A1;
    try (intros H; inversion H; subst; apply Hnil; exact A1).
  destruct (db_Begin w1) as [[[]|e] w2] eqn:E2;
    destruct (db_Begin_spec _ _ _ E2) as (_ & T2 & _);
    pose proof (asks_then_nothing _ _ _ _ A1
                  (asks_nothing _ _ _ _ T2 ltac:(discriminate))) as A2.
  2:{ intros H; inversion H; subst. apply Hnil. exact A2. }
  assert (Hback : forall wk, asks w wk [] -> asks w (tx_Rollback wk) []).
  { intros wk A. apply (asks_then_nothing _ _ _ _ A).
    apply (asks_nothing _ _ CallRollback None); [reflexivity | discriminate]. }
  fold (rootOf i).
  destruct (CreateProductRoot QTx (rootOf i) w2) as [[[id createdOn]|e] w3] eqn:E3;
    apply store_call_trace in E3;
    pose proof (asks_then_nothing _ _ _ _ A2
                  (asks_nothing _ _ _ _ E3 ltac:(discriminate))) as A3.
  2:{ intros H; inversion H; subst. apply Hnil, Hback. exact A3. }
  match goal with
  | |- context [createOptionsLoop (in_Options i) ?r w3] =>
      destruct (createOptionsLoop (in_Options i) r w3) as [[root4|e] w4] eqn:E4;
      pose proof (createOptionsLoop_run 0%N _ _ _ _ _ E4) as R4; cbn in R4;
      pose proof (asks_then_nothing _ _ _ _ A3 (createOptionsLoop_asks _ _ _ _ _ E4)) as A4
  end.
  2:{ intros H; inversion H; subst. apply Hnil, Hback. exact A4. }
  destruct R4 as (_ & _ & Hsku & news & Hopts & Hnews). cbn in Hopts. rewrite <- Hopts in Hnews.
  destruct (in_Options i) as [|o0 orest] eqn:Eopts; [congruence|].
  unfold createProductsInDBFromOptionRows.
  destruct (generateCartesianProductForOptions (r_Options root4)) as [data| |] eqn:Egen;
    try discriminate.
  apply generateCartesianProductForOptions_returned in Egen. subst data.
  match goal with
  | |- context [createProductsLoop root4 ?np ?data [] w4] =>
      destruct (createProductsLoop root4 np data [] w4) as [[ps|e] w5] eqn:E5;
      destruct (createProductsLoop_asks _ _ _ _ _ _ _ E5) as [k A5];
      pose proof (asks_trans _ _ _ _ _ A4 A5) as A; cbn [app] in A;
      pose proof (variant_names i root4 np k) as Hnames
  end; rewrite Eopts in Hnames; specialize (Hnames Hnews Hsku).
  - destruct (tx_Commit w5) as [[[]|e] w6] eqn:E6;
      destruct (tx_Commit_spec _ _ _ E6) as (_ & _ & T6 & _);
      pose proof (asks_then_nothing _ _ _ _ A
                    (asks_nothing _ _ _ _ T6 ltac:(discriminate))) as A6.
    + match goal with
      | |- context [callWebhooks ?et ?a w6] =>
          destruct (callWebhooks et a w6) as [resp7 w7] eqn:E7;
          destruct (callWebhooks_spec _ _ _ _ _ E7) as (_ & _ & (tail & T7 & Htail) & _)
      end.
      intros H; inversion H; subst. eexists k, _. split; [|exact Hnames].
      exact (asks_then_nothing _ _ _ _ A6 (asks_after_commit _ _ _ T7 Htail)).
    + intros H; inversion H; subst. eexists k, _. split; [exact A6 | exact Hnames].
  - intros H; inversion H; subst. eexists k, _. split; [|exact Hnames].
    apply (asks_then_nothing _ _ _ _ A).
    apply (asks_nothing _ _ CallRollback None); [reflexivity | discriminate].
Qed.

(** C3. In every run of the creation handler for a payload with at
    least one option, the products the handler asks the store to create
    are, in the order of the calls, those of the first selections of one
    value per option in odometer order, and for each selection the
    product's SKU is the payload's SKU, "_", and the lowercased selected
    values joined by "_" in option input order; its summary is the
    "OptionName: Value" pairs, not lowercased, joined by ", " in option
    input order; and its applicable values are the selected ones.  So
    is the product that the loop of [createProductsInDBFromOptionRows]
    builds for every combination the enumerator returns for the options
    created for the payload. *)
Theorem CommitCatalog_derives_sku_and_summary
        (req : Request) (w : World) (productInput : ProductCreationInput)
        (resp : Response) (w' : World) (evs : list Event) :
  validateRequestInput req = Ok productInput ->
  buildProductCreationHandler req w = Returned (resp, w') ->
  trace w' = trace w ++ evs ->
  in_Options productInput <> [] ->
  (exists k,
      map named (asked_products evs) =
      map (derived (in_SKU productInput) (map oci_Name (in_Options productInput)))
          (firstn k (odometer (map oci_Values (in_Options productInput))))) /\
  (forall root np combinations,
      created_from (in_Options productInput) (r_Options root) ->
      r_SKUPrefix root = in_SKU productInput ->
      generateCartesianProductForOptions (r_Options root) = Returned combinations ->
      map named (map (variant_of root np) combinations) =
      map (derived (in_SKU productInput) (map oci_Name (in_Options productInput)))
          (odometer (map oci_Values (in_Options productInput)))).
Proof.
  intros Hbody Hrun Hevs Hne. split.
  - destruct (buildProductCreationHandler_asks _ _ _ _ _ Hbody Hne Hrun)
      as (k & ps & (evs' & Hevs' & <-) & Hnames).
    rewrite (new_events _ _ _ _ Hevs Hevs'). now exists k.
  - intros root np combinations Hcreated Hsku Hgen.
    apply generateCartesianProductForOptions_returned in Hgen. subst combinations.
    rewrite <- (combination_names (in_SKU productInput) _ _ Hcreated), <- Hsku.
    now rewrite map_map.
Qed.

(** ** Quantity per package *)

Lemma created_product_quantity (q : uint32) (oks : list Event) (p : Product)
      (eo : option error) :
  Forall (fun ev => snd ev = None /\ creation_event q ev) oks ->
  In (CallCreateProduct p, eo) oks -> p_QuantityPerPackage p = q.
Proof.
  intros Hoks Hin. rewrite Forall_forall in Hoks.
  destruct (Hoks _ Hin) as [_ [_ H]]. now apply H.
Qed.

Lemma no_product_after_commit (tail : list Event) (p : Product) (eo : option error) :
  Forall after_commit_event tail -> ~ In (CallCreateProduct p, eo) tail.
Proof.
  intros Htail Hin. rewrite Forall_forall in Htail.
  destruct (Htail _ Hin) as [[et H] | [wh H]]; cbn in H; discriminate.
Qed.

Ltac find_product :=
  match goal with
  | Hin : In _ _ |- _ =>
      repeat (apply in_app_or in Hin; destruct Hin as [Hin|Hin]);
      cbn [In opening checked] in Hin;
      repeat (destruct Hin as [Hin|Hin]);
      try contradiction;
      try discriminate
  end.

(** C10. In every run of the creation handler, every product the
    handler asks the store to create carries, as its quantity per
    package, the larger of the payload's quantity per package and 1,
    hence at least 1; such a call only comes after the check, the
    opening of the transaction and the successful creation of the root.
    The product rows the run commits and the products of the root it
    answers with carry this quantity too. *)
Theorem CommitCatalog_quantity_per_package_at_least_one
        (req : Request) (w : World) (productInput : ProductCreationInput)
        (resp : Response) (w' : World) (evs : list Event) :
  validateRequestInput req = Ok productInput ->
  buildProductCreationHandler req w = Returned (resp, w') ->
  trace w' = trace w ++ evs ->
  (1 <= N.max (in_QuantityPerPackage productInput) 1)%N /\
  (forall p eo,
      In (CallCreateProduct p, eo) evs ->
      p_QuantityPerPackage p = N.max (in_QuantityPerPackage productInput) 1 /\
      exists rest, evs = opening productInput None ++ rest /\
                   In (CallCreateProduct p, eo) rest) /\
  (exists rows,
      products (committed w') = products (committed w) ++ rows /\
      Forall (fun row =>
                p_QuantityPerPackage row = N.max (in_QuantityPerPackage productInput) 1)
             rows) /\
  (forall root,
      resp = StatusCreated root ->
      Forall (fun p => p_QuantityPerPackage p = N.max (in_QuantityPerPackage productInput) 1)
             (r_Products root)).
Proof.
  intros Hbody Hrun Hevs.
  split; [apply N.le_max_r|].
  pose proof (creation_report_sound req w) as Rep. rewrite Hrun in Rep.
  assert (Hsame : forall w0, frame w w0 ->
            exists rows : list Product,
              products (committed w0) = products (committed w) ++ rows /\
              Forall (fun row =>
                        p_QuantityPerPackage row =
                        N.max (in_QuantityPerPackage productInput) 1) rows).
  { intros w0 (H & _). exists []. rewrite H, app_nil_r. split; [reflexivity | constructor]. }
  inversion Rep as
    [ err Hv
    | i err Hv Hsku
    | i err eo0 w0 Hv Hf Htx Ht
    | i e0 w0 Hv Hf Htx Ht
    | i e0 attempting w0 Hv Hf Htx Ht
    | i e0 attempting w0 oks c0 Hv Hf Htx Ht Hoks Hc0
    | i e0 w0 oks Hv Hf Htx Ht Hoks
    | i root0 resp0 w0 oks tail rows nb Hv Hf Hcl Htx Ht Hoks Htail Hp Hq Hl Hb Hsku
        Hvar Hresp
    | ]; subst;
    try (pose proof (handler_answer _ _ _ Hbody Hv); subst i);
    try (rewrite (new_events _ _ _ _ Hevs Ht) in * );
    try (apply no_new_events in Hevs; subst evs).
  - split; [intros p eo []|]. split; [apply Hsame, frame_refl | discriminate].
  - split; [intros p eo []|]. split; [apply Hsame, frame_refl | discriminate].
  - split; [intros p eo Hin; find_product|]. split; [now apply Hsame | discriminate].
  - split; [intros p eo Hin; find_product|]. split; [now apply Hsame | discriminate].
  - split; [intros p eo Hin; find_product|]. split; [now apply Hsame | discriminate].
  - split; [|split; [now apply Hsame | discriminate]].
    intros p eo Hin. split.
    + pose proof (created_product_quantity _ oks p eo Hoks) as Hq.
      find_product; auto.
      inversion Hin; subst. destruct Hc0 as [_ H]. now apply H.
    + eexists. split; [reflexivity|]. find_product; apply in_or_app; auto.
      right. rewrite <- Hin. now left.
  - split; [|split; [now apply Hsame | discriminate]].
    intros p eo Hin. split.
    + pose proof (created_product_quantity _ oks p eo Hoks) as Hq.
      find_product; auto.
    + eexists. split; [reflexivity|]. find_product; apply in_or_app; auto.
  - split; [|split].
    + intros p eo Hin.
      pose proof (no_product_after_commit tail p eo Htail) as Hno.
      split.
      * pose proof (created_product_quantity _ oks p eo Hoks) as Hq'.
        find_product; auto.
      * eexists. split; [reflexivity|]. find_product; apply in_or_app; auto.
    + exists rows. split; [exact Hp | exact Hq].
    + intros root Hr. destruct Hresp as [Hresp | [e Hresp]]; [|congruence].
      rewrite Hresp in Hr. inversion Hr; subst root0.
      unfold variants in Hvar. cbv zeta in Hvar.
      destruct (in_Options productInput).
      * destruct Hvar as (_ & _ & p & -> & _ & Hqp & _). now constructor.
      * destruct Hvar as (_ & Hprods & _).
        clear - Hprods. induction Hprods as [|c p cs ps (_ & _ & _ & _ & H) _ IH];
          constructor; auto.
Qed.

(** ** The enumerator and the empty list of options *)

(** C5, as the code has it. Given an empty list of options the
    enumerator does not return the empty sequence: its loop test reads
    [ix[0]] of an empty index vector, which is an index out of range,
    and the function panics.  The creation handler never runs into
    this: for a payload without options it does not call the enumerator
    and always answers. *)
Theorem generateCartesianProductForOptions_panics_on_no_option :
  generateCartesianProductForOptions [] = Panicked /\
  forall req w productInput,
    validateRequestInput req = Ok productInput ->
    in_Options productInput = [] ->
    exists resp w', buildProductCreationHandler req w = Returned (resp, w').
Proof.
  split; [reflexivity|]. intros req w productInput Hv Hnone.
  destruct (creation_report_sound req w) as [| | | | | | | |i o rest Hv' Hopts]; eauto.
  rewrite (handler_answer _ _ _ Hv Hv') in Hopts. congruence.
Qed.

(** ** Archiving a variant *)















(** ** Archiving is stamping live rows only *)

(** An update that selects live rows only leaves the archived rows as
    they are. *)
Lemma sql_update_live_only {R : Type} (where_ : R -> bool) (set_ : R -> R)
      (archived_on : R -> option Time) (rows : list R) :
  (forall row, where_ row = true -> archived_on row = None) ->
  Forall2 (fun old new => archived_on old <> None -> new = old)
          rows (sql_update where_ set_ rows).
Proof.
  intros Hlive. induction rows as [|row rows IH]; cbn; constructor; [|exact IH].
  intros Harchived. destruct (where_ row) eqn:E; [|reflexivity].
  now apply Hlive in E.
Qed.

Lemma is_null_true {A : Type} (x : option A) : is_null x = true -> x = None.
Proof. destruct x; [discriminate | reflexivity]. Qed.

(** The archival of the bridge rows of a product never stamps a row
    that is archived already. *)
Lemma productVariantBridgeDeletionQueryByProductID_is_monotonic
      (productID : uint64) (now : Time) (s : table -> N) (t : Tables) :
  Forall2 (fun old new => b_ArchivedOn old <> None -> new = old)
          (product_variant_bridge t)
          (product_variant_bridge
             (snd (productVariantBridgeDeletionQueryByProductID productID now s t))).
Proof.
  unfold productVariantBridgeDeletionQueryByProductID.
  destruct (existsb _ (product_variant_bridge t)); cbn.
  - apply sql_update_live_only. intros row H.
    apply andb_prop in H. destruct H as [_ H]. now apply is_null_true.
  - clear. induction (product_variant_bridge t); constructor; auto.
Qed.

(** Neither does the archival of an option, nor that of its values. *)
Lemma productOptionDeletionQuery_is_monotonic
      (optionID : uint64) (now : Time) (s : table -> N) (t : Tables) :
  Forall2 (fun old new => po_ArchivedOn old <> None -> new = old)
          (product_options t)
          (product_options (snd (productOptionDeletionQuery optionID now s t))).
Proof.
  cbn. apply sql_update_live_only. intros row H.
  apply andb_prop in H. destruct H as [_ H]. now apply is_null_true.
Qed.

Lemma productOptionValuesDeletionQueryByOptionID_is_monotonic
      (optionID : uint64) (now : Time) (s : table -> N) (t : Tables) :
  Forall2 (fun old new => pov_ArchivedOn old <> None -> new = old)
          (product_option_values t)
          (product_option_values
             (snd (productOptionValuesDeletionQueryByOptionID optionID now s t))).
Proof.
  cbn. apply sql_update_live_only. intros row H.
  apply andb_prop in H. destruct H as [_ H]. now apply is_null_true.
Qed.

(** C7, where the code departs from it. [DeleteProductVariantBridge]
    has no [archived_on IS NULL] in its statement: asked at time 9 to
    archive the bridge row 2, archived at time 5, it stamps the row
    again, with 9. *)
Theorem DeleteProductVariantBridge_stamps_an_archived_row_again :
  b_ArchivedOn archived_bridge = Some 5%N /\
  fst (DeleteProductVariantBridge QDB 2%N (stocked never)) = Ok 9%N /\
  product_variant_bridge
    (committed (snd (DeleteProductVariantBridge QDB 2%N (stocked never)))) =
  [live_bridge; set_b_ArchivedOn (Some 9%N) archived_bridge].
Proof.
  repeat split.
Qed.

(** * Further properties of the code *)

(** ** The enumerator *)

Lemma count_combinations_values (inputOptions : list ProductOption) :
  count_combinations (map po_Values inputOptions) =
  fold_right Nat.mul 1 (map (fun o => length (po_Values o)) inputOptions).
Proof.
  induction inputOptions as [|o rest IH]; cbn; [reflexivity | now rewrite IH].
Qed.

Lemma Forall2_In_map {A B : Type} (f : B -> list A) (r : list A) (l : list B) :
  Forall2 (fun a s => In a s) r (map f l) <-> Forall2 (fun a x => In a (f x)) r l.
Proof.
  revert r. induction l as [|x l IH]; intros r; cbn; split; intros H;
    inversion H; subst; constructor; auto; now apply IH.
Qed.

(** X1. Whenever the enumerator returns, the number of combinations it
    returns is the product of the numbers of values of the options. *)
Theorem generateCartesianProductForOptions_count
        (inputOptions : list ProductOption) (combinations : list simpleProductOption) :
  generateCartesianProductForOptions inputOptions = Returned combinations ->
  length combinations =
  fold_right Nat.mul 1 (map (fun o => length (po_Values o)) inputOptions).
Proof.
  intros H. apply generateCartesianProductForOptions_returned in H. subst combinations.
  now rewrite length_map, length_odometer, count_combinations_values.
Qed.

(** X2. Every combination the enumerator returns holds exactly one
    value of every option, in the order of the options, and its ids are
    the ids of these values, in the same order. *)
Theorem generateCartesianProductForOptions_selects_one_value_per_option
        (inputOptions : list ProductOption) (combinations : list simpleProductOption)
        (c : simpleProductOption) :
  generateCartesianProductForOptions inputOptions = Returned combinations ->
  In c combinations ->
  Forall2 (fun v o => In v (po_Values o)) (OriginalValues c) inputOptions /\
  IDs c = map pov_ID (OriginalValues c).
Proof.
  intros H Hin. apply generateCartesianProductForOptions_returned in H. subst combinations.
  apply in_map_iff in Hin. destruct Hin as (vs & <- & Hvs).
  split; [|reflexivity]. cbn [combination OriginalValues].
  apply Forall2_In_map. now apply In_odometer_Forall2.
Qed.

(** X3. Whenever the enumerator returns, every selection of one value
    per option is the selection of one of the combinations returned. *)
Theorem generateCartesianProductForOptions_is_complete
        (inputOptions : list ProductOption) (combinations : list simpleProductOption)
        (selection : list ProductOptionValue) :
  generateCartesianProductForOptions inputOptions = Returned combinations ->
  Forall2 (fun v o => In v (po_Values o)) selection inputOptions ->
  exists c, In c combinations /\ OriginalValues c = selection.
Proof.
  intros H Hsel. apply generateCartesianProductForOptions_returned in H. subst combinations.
  exists (combination inputOptions selection). split; [|reflexivity].
  apply in_map. apply odometer_complete. now apply Forall2_In_map.
Qed.

(** X4. An option without values: in the first place the enumerator
    returns no combination at all, whatever the other options; in a
    later place, after a first option that has values, it panics. *)
Theorem generateCartesianProductForOptions_option_without_values
        (o : ProductOption) (rest : list ProductOption) :
  (po_Values o = [] ->
   generateCartesianProductForOptions (o :: rest) = Returned []) /\
  (po_Values o <> [] -> Exists (fun o' => po_Values o' = []) rest ->
   generateCartesianProductForOptions (o :: rest) = Panicked).
Proof.
  split.
  - intros H. rewrite generateCartesianProductForOptions_first_empty by exact H.
    cbn [map odometer]. now rewrite H.
  - apply generateCartesianProductForOptions_panics.
Qed.

(** ** The statements on bridge rows, options and values *)

Lemma sql_update_rows {R : Type} (where_ : R -> bool) (set_ : R -> R) (rows : list R) :
  Forall2 (fun old new => new = if where_ old then set_ old else old)
          rows (sql_update where_ set_ rows).
Proof.
  unfold sql_update. induction rows as [|row rows IH]; cbn; constructor; auto.
Qed.


(** X5. [CreateMultipleProductVariantBridgesForProductID] never inserts
    a row: on the database handle as on a transaction, for every product
    and every list of option values, the call returns an error and the
    committed rows and the rows of the open transaction are as before. *)
Theorem CreateMultipleProductVariantBridgesForProductID_inserts_nothing
        (q : Querier) (productID : uint64) (optionValueIDs : list uint64) (w : World) :
  exists e,
    fst (CreateMultipleProductVariantBridgesForProductID q productID optionValueIDs w) =
      Err e /\
    committed (snd (CreateMultipleProductVariantBridgesForProductID
                      q productID optionValueIDs w)) = committed w /\
    tx (snd (CreateMultipleProductVariantBridgesForProductID
               q productID optionValueIDs w)) = tx w /\
    trace (snd (CreateMultipleProductVariantBridgesForProductID
                  q productID optionValueIDs w)) =
      trace w ++ [(CallCreateMultipleProductVariantBridgesForProductID
                     productID optionValueIDs, Some e)].
Proof.
  unfold CreateMultipleProductVariantBridgesForProductID, store_call.
  destruct (faults w (length (trace w))) as [e|]; [exists e; now repeat split|].
  destruct q.
  - rewrite multiProductVariantBridgeCreationQuery_refused. eexists. now repeat split.
  - destruct (tx w) as [t0|] eqn:Et; [|eexists; now repeat split].
    rewrite multiProductVariantBridgeCreationQuery_refused. eexists. now repeat split.
Qed.


(** X7. The two statements that archive an option, in the order the
    handler of product_options.go runs them (the values first, then the
    option): afterwards no value of the option and no option with this
    id is live, the rows that were archived before keep their stamps,
    and the values of other options and the other options are as they
    were. *)
Theorem archiving_an_option_and_its_values
        (optionID : uint64) (now : Time) (s : table -> N) (t : Tables) :
  let t1 := snd (productOptionValuesDeletionQueryByOptionID optionID now s t) in
  let t2 := snd (productOptionDeletionQuery optionID now s t1) in
  Forall (fun v => pov_ProductOptionID v = optionID -> pov_ArchivedOn v <> None)
         (product_option_values t2) /\
  Forall (fun o => po_ID o = optionID -> po_ArchivedOn o <> None) (product_options t2) /\
  Forall2 (fun old new =>
             (pov_ArchivedOn old <> None \/ pov_ProductOptionID old <> optionID) ->
             new = old)
          (product_option_values t) (product_option_values t2) /\
  Forall2 (fun old new => (po_ArchivedOn old <> None \/ po_ID old <> optionID) -> new = old)
          (product_options t) (product_options t2).
Proof.
  cbn. repeat split.
  - apply Forall_forall. intros new Hin. apply in_map_iff in Hin.
    destruct Hin as (old & <- & _). intros Hid.
    destruct (N.eqb (pov_ProductOptionID old) optionID && is_null (pov_ArchivedOn old))
      eqn:E; [discriminate|].
    apply N.eqb_eq in Hid. rewrite Hid in E. cbn in E.
    destruct (pov_ArchivedOn old); [discriminate | discriminate].
  - apply Forall_forall. intros new Hin. apply in_map_iff in Hin.
    destruct Hin as (old & <- & _). intros Hid.
    destruct (N.eqb (po_ID old) optionID && is_null (po_ArchivedOn old))
      eqn:E; [discriminate|].
    apply N.eqb_eq in Hid. rewrite Hid in E. cbn in E.
    destruct (po_ArchivedOn old); [discriminate | discriminate].
  - eapply Forall2_impl; [|apply sql_update_rows]. cbn. intros old new -> [Ha | Hid].
    + destruct (pov_ArchivedOn old); [|congruence]. now rewrite andb_false_r.
    + apply N.eqb_neq in Hid. now rewrite Hid.
  - eapply Forall2_impl; [|apply sql_update_rows]. cbn. intros old new -> [Ha | Hid].
    + destruct (po_ArchivedOn old); [|congruence]. now rewrite andb_false_r.
    + apply N.eqb_neq in Hid. now rewrite Hid.
Qed.

(** ** The creation handler *)

(** X8. The creation handler leaves no transaction open: started
    without one, every run that answers ends without one, whatever the
    store refuses. *)
Theorem buildProductCreationHandler_leaves_no_transaction_open
        (req : Request) (w : World) (resp : Response) (w' : World) :
  tx w = None ->
  buildProductCreationHandler req w = Returned (resp, w') ->
  tx w' = None.
Proof.
  intros Hnone Hrun.
  pose proof (creation_report_sound req w) as Rep. rewrite Hrun in Rep.
  inversion Rep; subst; congruence.
Qed.

(** X9. A run of the creation handler answered 400 has changed nothing
    and opened no transaction: it issued no call at all, or only the
    check for a root with the same SKU. *)
Theorem buildProductCreationHandler_bad_request_changes_nothing
        (req : Request) (w : World) (err : error) (w' : World) (evs : list Event) :
  buildProductCreationHandler req w = Returned (StatusBadRequest err, w') ->
  trace w' = trace w ++ evs ->
  committed w' = committed w /\ tx w' = tx w /\
  (evs = [] \/ exists sku eo, evs = [(CallProductRootWithSKUPrefixExists sku, eo)]).
Proof.
  intros Hrun Hevs.
  pose proof (creation_report_sound req w) as Rep. rewrite Hrun in Rep.
  inversion Rep as [err0 Hv | i err0 Hv Hs | i err0 eo w0 Hv F X T | | | | | |]; subst.
  - repeat split. left. rewrite <- (app_nil_r (trace w')) in Hevs at 1.
    now apply app_inv_head in Hevs.
  - repeat split. left. rewrite <- (app_nil_r (trace w')) in Hevs at 1.
    now apply app_inv_head in Hevs.
  - split; [apply F|]. split; [exact X|]. right. exists (in_SKU i), eo.
    exact (new_events _ _ _ _ Hevs T).
  - match goal with H : _ \/ _ |- _ => destruct H as [H | [e H]]; discriminate end.
Qed.

(** ** Options and their values *)

Lemma createValues_created (optionID : uint64) (values : list string) :
  forall created w vs w',
    createValues optionID values created w = (Ok vs, w') ->
    exists news evs,
      vs = created ++ news /\ map pov_Value news = values /\
      Forall (fun v => pov_ProductOptionID v = optionID) news /\
      trace w' = trace w ++ evs /\ length evs = length values.
Proof.
  induction values as [|value rest IH]; intros created w vs w' H; cbn [createValues] in H.
  - inversion H; subst. exists [], []. now rewrite !app_nil_r.
  - match type of H with
    | context [CreateProductOptionValue QTx ?v w] =>
        destruct (CreateProductOptionValue QTx v w) as [[[id createdOn]|e] w1] eqn:E1;
          [|discriminate];
        apply store_call_trace in E1
    end.
    destruct (IH _ _ _ _ H) as (news & evs & -> & Hv & Hid & T & L).
    eexists (_ :: news), (_ :: evs). rewrite <- app_assoc. split; [reflexivity|].
    split; [cbn; now rewrite Hv|]. split; [constructor; [reflexivity | exact Hid]|].
    split; [rewrite T, E1, <- app_assoc; reflexivity | cbn; now rewrite L].
Qed.

(** X10. When [createProductOptionAndValuesInDBFromInput] succeeds, the
    option it returns has the name of the input and the id of the root
    it was given, its values are those of the input, in input order,
    each carrying the id of the option, and the store was called once
    for the option and once for every value. *)
Theorem createProductOptionAndValuesInDBFromInput_returns_the_input
        (i : ProductOptionCreationInput) (productRootID : uint64) (w : World)
        (o : ProductOption) (w' : World) :
  createProductOptionAndValuesInDBFromInput i productRootID w = (Ok o, w') ->
  po_Name o = oci_Name i /\
  po_ProductRootID o = productRootID /\
  map pov_Value (po_Values o) = oci_Values i /\
  Forall (fun v => pov_ProductOptionID v = po_ID o) (po_Values o) /\
  exists evs, trace w' = trace w ++ evs /\ length evs = S (length (oci_Values i)).
Proof.
  unfold createProductOptionAndValuesInDBFromInput. intros H.
  match type of H with
  | context [CreateProductOption QTx ?o0 w] =>
      destruct (CreateProductOption QTx o0 w) as [[[id createdOn]|e] w1] eqn:E1;
        [|discriminate];
      apply store_call_trace in E1
  end.
  destruct (createValues id (oci_Values i) [] w1) as [[vs|e] w2] eqn:E2; [|discriminate].
  destruct (createValues_created _ _ _ _ _ _ E2) as (news & evs & Hvs & Hv & Hid & T & L).
  cbn [app] in Hvs. subst vs. inversion H; subst; clear H. cbn.
  repeat split; auto.
  eexists (_ :: evs). split; [rewrite T, E1, <- app_assoc; reflexivity | cbn; now rewrite L].
Qed.

End Catalog.

(** C6. With the validation of the specification, a payload with an
    option that has no value is refused with a validation error,
    answered with status 400, before anything else happens: the world is
    left exactly as it was, so no transaction was opened, no call was
    issued and nothing was expanded. *)
Theorem CommitCatalog_refuses_option_without_values
        (ToLower : string -> string) (restrictedStringIsValid : string -> bool)
        (req : Request) (w : World) (productInput : ProductCreationInput) :
  req_body req = Some productInput ->
  Exists (fun o => oci_Values o = []) (in_Options productInput) ->
  exists err,
    buildProductCreationHandler ToLower validateRequestInput_spec restrictedStringIsValid
                                req w = Returned (StatusBadRequest err, w) /\
    status (StatusBadRequest err) = 400.
Proof.
  intros Hbody Hex. unfold buildProductCreationHandler, validateRequestInput_spec.
  rewrite Hbody.
  assert (Hb : existsb (fun o => match oci_Values o with [] => true | _ => false end)
                       (in_Options productInput) = true).
  { apply existsb_exists. apply Exists_exists in Hex. destruct Hex as (o & Hin & Hnil).
    exists o. split; [exact Hin | now rewrite Hnil]. }
  rewrite Hb. eexists. split; reflexivity.
Qed.

(** * The theorems at work on the concrete inputs *)

(** The creation handler on a fresh store that refuses the calls [f]
    says, with ASCII lower-casing, the validation of the specification
    and every SKU accepted. *)
Definition commit (productInput : ProductCreationInput) (f : nat -> option error)
  : outcome (Response * World) :=
  buildProductCreationHandler strings.ToLowerASCII validateRequestInput_spec (fun _ => true)
                              (mkRequest (Some productInput)) (fresh f).

Definition duplicate_value : error :=
  ErrUniqueViolation "product_option_values_product_option_id_value_key".

(** What can be seen of a run from outside: the answer, the calls that
    reached the store, the committed rows and the open transaction. *)
Definition observe (o : outcome (Response * World))
  : option (Response * list Event * Tables * option Tables) :=
  match o with
  | Returned (resp, w) => Some (resp, trace w, committed w, tx w)
  | _ => None
  end.

Lemma observed (o : outcome (Response * World)) (resp : Response) (evs : list Event)
      (rows : Tables) (open : option Tables) :
  observe o = Some (resp, evs, rows, open) ->
  exists w', o = Returned (resp, w') /\ trace w' = evs /\ committed w' = rows /\ tx w' = open.
Proof.
  destruct o as [[resp0 w0]| |]; try discriminate. cbn. intros H.
  injection H as -> <- <- <-. now exists w0.
Qed.

(** The same for [commit], with the run in both of its readings. *)
Lemma commit_observed (productInput : ProductCreationInput) (f : nat -> option error)
      (resp : Response) (evs : list Event) (rows : Tables) (open : option Tables) :
  observe (commit productInput f) = Some (resp, evs, rows, open) ->
  exists w',
    buildProductCreationHandler strings.ToLowerASCII validateRequestInput_spec (fun _ => true)
                                (mkRequest (Some productInput)) (fresh f) =
      Returned (resp, w') /\
    commit productInput f = Returned (resp, w') /\
    trace w' = evs /\ committed w' = rows /\ tx w' = open.
Proof.
  intros H. destruct (observed _ _ _ _ _ H) as (w' & E & T & C & X).
  exists w'. repeat split; assumption.
Qed.

(** The shirt of the specification, three sizes and two colours, on a
    store that refuses nothing on its own: the statement for the bridge
    rows of the first variant, the twelfth call of the run, is refused,
    the handler rolls back and answers 500, and no row is committed. *)
Lemma shirt_is_rolled_back_at_its_first_bridge_rows :
  exists w',
    commit shirt never =
      Returned (StatusInternalServerError (ErrOther "the INSERT statement is refused")
                  "insert products in database", w') /\
    length (trace w') = 13 /\
    nth_error (trace w') 11 =
      Some (CallCreateMultipleProductVariantBridgesForProductID 1%N [1%N; 4%N],
            Some (ErrOther "the INSERT statement is refused")) /\
    nth_error (trace w') 12 = Some (CallRollback, None) /\
    committed w' = no_rows.
Proof.
  destruct (commit_observed shirt never _ _ _ _ ltac:(vm_compute; reflexivity))
    as (w' & E & G & T & _).
  exists w'. split; [exact G|].
  destruct (CommitCatalog_commits_no_variant_for_options
              strings.ToLowerASCII validateRequestInput_spec (fun _ => true)
              (mkRequest (Some shirt)) (fresh never) shirt _ _ eq_refl E) as [H _].
  destruct (H ltac:(discriminate) ltac:(repeat constructor; discriminate)) as [_ C].
  rewrite T. repeat split. exact C.
Defined.

(** A store that refuses the creation of the root: the run is rolled
    back and nothing is committed. *)
Lemma refused_root_is_rolled_back :
  exists resp w',
    commit shirt (only 2 (ErrOther "connection lost")) = Returned (resp, w') /\
    (exists attempting, resp = StatusInternalServerError (ErrOther "connection lost") attempting) /\
    tx w' = None /\
    committed w' = no_rows.
Proof.
  destruct (commit_observed shirt (only 2 (ErrOther "connection lost")) _ _ _ _
                     ltac:(vm_compute; reflexivity))
    as (w' & E & G & T & _).
  eexists. exists w'. split; [exact G|].
  destruct (CommitCatalog_rolls_back_as_a_unit
              strings.ToLowerASCII validateRequestInput_spec (fun _ => true)
              (mkRequest (Some shirt)) (fresh (only 2 (ErrOther "connection lost"))) _ _ _
              (CallCreateProductRoot (rootOf shirt)) (ErrOther "connection lost")
              E T eq_refl ltac:(right; right; left; reflexivity))
    as (A & _ & C & D).
  split; [exact A|]. split; [exact C | exact D].
Defined.

(** The root of the shirt once its options are stored. *)
Definition shirt_root : ProductRoot :=
  mkProductRoot 1%N "shirt" 0%N sizes_and_colors [] 7%N None plain.

(** The shirt again: the one variant the run asks for is the first of
    the odometer order, and the six variants built for the combinations
    of its options carry the names of the specification's scenario. *)
Lemma shirt_variants_are_named_as_specified :
  exists resp w' combinations,
    commit shirt never = Returned (resp, w') /\
    map named (asked_products (trace w')) =
      [("shirt_small_red", "Size: Small, Color: Red", ["Small"; "Red"])] /\
    generateCartesianProductForOptions strings.ToLowerASCII sizes_and_colors =
      Returned combinations /\
    map (fun c => let p := variant_of shirt_root (newProductFromCreationInput shirt) c in
                  (p_SKU p, p_OptionSummary p))
        combinations =
    [("shirt_small_red", "Size: Small, Color: Red");
     ("shirt_small_blue", "Size: Small, Color: Blue");
     ("shirt_medium_red", "Size: Medium, Color: Red");
     ("shirt_medium_blue", "Size: Medium, Color: Blue");
     ("shirt_large_red", "Size: Large, Color: Red");
     ("shirt_large_blue", "Size: Large, Color: Blue")].
Proof.
  destruct (commit_observed shirt never _ _ _ _ ltac:(vm_compute; reflexivity))
    as (w' & E & G & T & _).
  assert (Hgen : exists combinations,
             generateCartesianProductForOptions strings.ToLowerASCII sizes_and_colors =
             Returned combinations) by (eexists; vm_compute; reflexivity).
  destruct Hgen as [combinations Hgen].
  eexists. exists w', combinations. split; [exact G|].
  destruct (CommitCatalog_derives_sku_and_summary
              strings.ToLowerASCII validateRequestInput_spec (fun _ => true)
              (mkRequest (Some shirt)) (fresh never) shirt _ _ _ eq_refl E T
              ltac:(discriminate))
    as [_ H].
  specialize (H shirt_root (newProductFromCreationInput shirt) combinations
                ltac:(repeat constructor) eq_refl Hgen).
  split; [rewrite T; vm_compute; reflexivity|]. split; [exact Hgen|].
  apply (f_equal (map (fun x : string * string * list string => fst x))) in H.
  rewrite !map_map in H. etransitivity; [exact H|]. vm_compute. reflexivity.
Defined.

(** Three sizes and two colours, enumerated: the colour cycles fastest. *)
Lemma sizes_and_colors_in_odometer_order :
  exists combinations,
    generateCartesianProductForOptions strings.ToLowerASCII sizes_and_colors =
      Returned combinations /\
    map IDs combinations = [[1; 4]; [1; 5]; [2; 4]; [2; 5]; [3; 4]; [3; 5]]%N.
Proof.
  destruct (generateCartesianProductForOptions_odometer_order
              strings.ToLowerASCII sizes_and_colors
              ltac:(discriminate) ltac:(repeat constructor; discriminate))
    as (combinations & H1 & _ & H3).
  exists combinations. split; [exact H1|]. rewrite H3. reflexivity.
Defined.

(** The enumerator on no option at all: a panic, not the empty sequence. *)
Lemma no_option_is_a_panic :
  generateCartesianProductForOptions strings.ToLowerASCII [] = Panicked /\
  generateCartesianProductForOptions strings.ToLowerASCII [] <> Returned [].
Proof.
  split; [reflexivity | discriminate].
Qed.

(** The mug of the specification has no option: the handler answers,
    with the base product alone. *)
Lemma mug_is_answered :
  generateCartesianProductForOptions strings.ToLowerASCII [] = Panicked /\
  exists resp w', commit mug never = Returned (resp, w').
Proof.
  destruct (generateCartesianProductForOptions_panics_on_no_option
              strings.ToLowerASCII validateRequestInput_spec (fun _ => true)) as [H1 H2].
  split; [exact H1|].
  exact (H2 (mkRequest (Some mug)) (fresh never) mug eq_refl eq_refl).
Defined.

(** The payload whose first option has no value is refused at once. *)
Lemma hollow_is_refused :
  exists err,
    commit hollow never = Returned (StatusBadRequest err, fresh never) /\
    status (StatusBadRequest err) = 400.
Proof.
  apply (CommitCatalog_refuses_option_without_values
           strings.ToLowerASCII (fun _ => true) (mkRequest (Some hollow)) (fresh never)
           hollow eq_refl).
  left. reflexivity.
Defined.

(** What the handler itself does with an option without values, when
    the validation lets the payload through: a root without any variant
    is committed when the option comes first, and the enumerator panics
    when it comes later. *)
Lemma first_option_without_values_commits_no_variant :
  exists root w',
    buildProductCreationHandler strings.ToLowerASCII accept_decoded (fun _ => true)
                                (mkRequest (Some hollow)) (fresh never) =
      Returned (StatusCreated root, w') /\
    r_Products root = [] /\
    length (product_roots (committed w')) = 1 /\
    products (committed w') = [].
Proof.
  destruct (observed (buildProductCreationHandler strings.ToLowerASCII accept_decoded
                        (fun _ => true) (mkRequest (Some hollow)) (fresh never))
                     _ _ _ _ ltac:(vm_compute; reflexivity))
    as (w' & E & _ & C & _).
  eexists. exists w'. split; [exact E|]. rewrite C. repeat split.
Qed.

Lemma later_option_without_values_panics :
  buildProductCreationHandler strings.ToLowerASCII accept_decoded (fun _ => true)
                              (mkRequest (Some hollow_later)) (fresh never) = Panicked.
Proof. vm_compute. reflexivity. Qed.

(** The payload that names "Red" twice passes the pre-check; the store
    refuses the second "Red" for the uniqueness of a value within its
    option, and the handler answers 500, an internal error. *)
Lemma duplicate_value_is_answered_with_500 :
  exists w',
    commit twins (only 5 duplicate_value) =
      Returned (StatusInternalServerError duplicate_value
                  "insert product options and values in database", w') /\
    status (StatusInternalServerError duplicate_value
              "insert product options and values in database") = 500.
Proof.
  destruct (commit_observed twins (only 5 duplicate_value) _ _ _ _
                     ltac:(vm_compute; reflexivity))
    as (w' & E & G & _).
  exists w'. split; [exact G | reflexivity].
Qed.

Lemma duplicate_value_is_rolled_back :
  exists resp w',
    commit twins (only 5 duplicate_value) = Returned (resp, w') /\
    status resp = 500 /\
    tx w' = None /\
    committed w' = no_rows.
Proof.
  destruct (commit_observed twins (only 5 duplicate_value) _ _ _ _
                     ltac:(vm_compute; reflexivity))
    as (w' & E & G & T & _).
  eexists. exists w'. split; [exact G|].
  destruct (CommitCatalog_answers_unique_violation_with_500
              strings.ToLowerASCII validateRequestInput_spec (fun _ => true)
              (mkRequest (Some twins)) (fresh (only 5 duplicate_value)) _ _ _
              (CallCreateProductOptionValue (mkProductOptionValue 0%N 1%N "Red" 0%N None))
              "product_option_values_product_option_id_value_key"
              E T (or_introl eq_refl) ltac:(do 5 right; left; reflexivity))
    as (A & _ & _ & C & D).
  split; [exact A|]. split; [exact C | exact D].
Defined.

(** The mug comes with a quantity per package of 0 and is stored with 1. *)
Lemma mug_is_stored_with_one_per_package :
  exists resp w',
    commit mug never = Returned (resp, w') /\
    map p_QuantityPerPackage (products (committed w')) = [1%N].
Proof.
  destruct (commit_observed mug never _ _ _ _ ltac:(vm_compute; reflexivity))
    as (w' & E & G & T & C & _).
  eexists. exists w'. split; [exact G|].
  destruct (CommitCatalog_quantity_per_package_at_least_one
              strings.ToLowerASCII validateRequestInput_spec (fun _ => true)
              (mkRequest (Some mug)) (fresh never) mug _ _ _ eq_refl E T)
    as (_ & _ & (rows & Hrows & Hq) & _).
  rewrite Hrows. rewrite C in Hrows. cbn in Hrows. subst rows.
  inversion Hq as [|? ? Hrow _]; subst. cbn [fresh no_rows committed products app map].
  rewrite Hrow. reflexivity.
Defined.


(** * The further properties at work *)

(** Three sizes and two colours give six combinations. *)
Lemma sizes_and_colors_give_six_combinations :
  exists combinations,
    generateCartesianProductForOptions strings.ToLowerASCII sizes_and_colors =
      Returned combinations /\
    length combinations = 6.
Proof.
  assert (H : exists combinations,
             generateCartesianProductForOptions strings.ToLowerASCII sizes_and_colors =
             Returned combinations) by (eexists; vm_compute; reflexivity).
  destruct H as [combinations H]. exists combinations. split; [exact H|].
  rewrite (generateCartesianProductForOptions_count strings.ToLowerASCII _ _ H).
  reflexivity.
Defined.

(** The first combination holds the first size and the first colour. *)
Lemma small_red_holds_one_value_per_option :
  exists c,
    IDs c = [1; 4]%N /\
    map pov_Value (OriginalValues c) = ["Small"; "Red"] /\
    Forall2 (fun v o => In v (po_Values o)) (OriginalValues c) sizes_and_colors.
Proof.
  destruct (generateCartesianProductForOptions_selects_one_value_per_option
              strings.ToLowerASCII sizes_and_colors _ _
              ltac:(vm_compute; reflexivity) ltac:(left; reflexivity)) as [A B].
  eexists. split; [|split; [|exact A]]; reflexivity.
Defined.

(** The selection of the last size and the last colour is among the
    combinations returned. *)
Lemma large_blue_is_a_combination :
  exists combinations c,
    generateCartesianProductForOptions strings.ToLowerASCII sizes_and_colors =
      Returned combinations /\
    In c combinations /\
    OriginalValues c = [mkProductOptionValue 3%N 1%N "Large" 7%N None;
                        mkProductOptionValue 5%N 2%N "Blue" 7%N None].
Proof.
  assert (H : exists combinations,
             generateCartesianProductForOptions strings.ToLowerASCII sizes_and_colors =
             Returned combinations) by (eexists; vm_compute; reflexivity).
  destruct H as [combinations H]. exists combinations.
  destruct (generateCartesianProductForOptions_is_complete
              strings.ToLowerASCII sizes_and_colors combinations
              [mkProductOptionValue 3%N 1%N "Large" 7%N None;
               mkProductOptionValue 5%N 2%N "Blue" 7%N None] H)
    as (c & Hin & Hc).
  - constructor; [cbn; auto|]. constructor; [cbn; auto | constructor].
  - exists c. auto.
Defined.

(** The mug, on a store without an open transaction, leaves none open. *)
Lemma mug_leaves_no_transaction_open :
  exists resp w', commit mug never = Returned (resp, w') /\ tx w' = None.
Proof.
  destruct (commit_observed mug never _ _ _ _ ltac:(vm_compute; reflexivity))
    as (w' & E & G & _).
  eexists. exists w'. split; [exact G|].
  exact (buildProductCreationHandler_leaves_no_transaction_open
           strings.ToLowerASCII validateRequestInput_spec (fun _ => true)
           (mkRequest (Some mug)) (fresh never) _ w' eq_refl E).
Defined.

(** A store that holds a live root with the SKU of the shirt. *)
Definition taken : World :=
  mkWorld (mkTables [shirt_root] [] [] [] [] []) None (fun _ => 1%N) 7%N never [].

(** The shirt posted to it is answered 400 after the check alone. *)
Lemma taken_sku_is_refused_after_the_check :
  exists err w',
    buildProductCreationHandler strings.ToLowerASCII validateRequestInput_spec
                                (fun _ => true) (mkRequest (Some shirt)) taken =
      Returned (StatusBadRequest err, w') /\
    trace w' = [(CallProductRootWithSKUPrefixExists "shirt", None)] /\
    committed w' = committed taken /\
    tx w' = None.
Proof.
  destruct (observed (buildProductCreationHandler
                        strings.ToLowerASCII validateRequestInput_spec (fun _ => true)
                        (mkRequest (Some shirt)) taken)
                     _ _ _ _ ltac:(vm_compute; reflexivity))
    as (w' & E & T & _).
  eexists. exists w'. split; [exact E|]. split; [exact T|].
  destruct (buildProductCreationHandler_bad_request_changes_nothing
              strings.ToLowerASCII validateRequestInput_spec (fun _ => true)
              (mkRequest (Some shirt)) taken _ w' _ E T) as (C & X & _).
  split; [exact C | exact X].
Defined.

(** A store with an open transaction and no row. *)
Definition in_transaction : World :=
  mkWorld no_rows (Some no_rows) (fun _ => 0%N) 7%N never [].

(** The option Color with the values Red and Blue, created for the
    root 1. *)
Lemma color_is_created_with_its_values :
  exists o w',
    createProductOptionAndValuesInDBFromInput
      (mkProductOptionCreationInput "Color" ["Red"; "Blue"]) 1%N in_transaction =
      (Ok o, w') /\
    po_Name o = "Color" /\
    po_ProductRootID o = 1%N /\
    map pov_Value (po_Values o) = ["Red"; "Blue"] /\
    length (trace w') = 3.
Proof.
  assert (H : exists o,
             fst (createProductOptionAndValuesInDBFromInput
                    (mkProductOptionCreationInput "Color" ["Red"; "Blue"]) 1%N
                    in_transaction) = Ok o) by (eexists; vm_compute; reflexivity).
  destruct H as [o H].
  assert (E : createProductOptionAndValuesInDBFromInput
                (mkProductOptionCreationInput "Color" ["Red"; "Blue"]) 1%N in_transaction =
              (Ok o,
               snd (createProductOptionAndValuesInDBFromInput
                      (mkProductOptionCreationInput "Color" ["Red"; "Blue"]) 1%N
                      in_transaction)))
    by (rewrite <- H; apply surjective_pairing).
  destruct (createProductOptionAndValuesInDBFromInput_returns_the_input _ _ _ _ _ E)
    as (A & B & C & _ & evs & T & L).
  exists o. eexists. split; [exact E|].
  split; [exact A|]. split; [exact B|]. split; [exact C|].
  rewrite T, length_app, L. reflexivity.
Defined.
